(** * A breadth-first web crawler: [crawler.command.ts]

    Shallow embedding of the [CrawlerCommand] class (the annotated, second
    version in the source file, lines 274-588) and the properties of the
    traversal engine, the page extractor and the URL normaliser.

    JavaScript strings are sequences of UTF-16 code units; they are modelled
    as [list N].  Arrays are lists, the output object (a JS object indexed by
    the auto-increment id) is a [gmap Z].  The two external capabilities,
    [axios.get] and [cheerio.load], are Section variables: the web is a fixed
    function from URLs to responses for the duration of one crawl. *)

From Stdlib Require Import ZArith NArith Lia.
From Stdlib Require Import Ascii String.
From stdpp Require Import gmap list strings.

Local Open Scope Z_scope.

(** ** JavaScript strings *)

Module JS.

Abbreviation jschar := N (only parsing).
Abbreviation jsstring := (list N) (only parsing).

(** A literal of the source, code unit by code unit (ASCII only). *)
Definition js (s : string) : jsstring :=
  List.map N_of_ascii (list_ascii_of_string s).

(** [!s] for a string: only the empty string is falsy. *)
Definition truthy (s : jsstring) : bool :=
  match s with [] => false | _ :: _ => true end.

(** [s.startsWith(p)] *)
Fixpoint startsWith (s p : jsstring) {struct p} : bool :=
  match p with
  | [] => true
  | c :: p' =>
      match s with
      | [] => false
      | d :: s' => (d =? c)%N && startsWith s' p'
      end
  end.

(** [s.endsWith(p)] *)
Definition endsWith (s p : jsstring) : bool :=
  startsWith (reverse s) (reverse p).

(** [s.indexOf(p)], counted from position [i]; -1 when [p] does not occur. *)
Fixpoint indexOf_from (s p : jsstring) (i : Z) : Z :=
  if startsWith s p then i
  else match s with
       | [] => -1
       | _ :: s' => indexOf_from s' p (i + 1)
       end.

Definition indexOf (s p : jsstring) : Z := indexOf_from s p 0.

(** [s.includes(p)] *)
Fixpoint includes (s p : jsstring) : bool :=
  startsWith s p ||
  match s with
  | [] => false
  | _ :: s' => includes s' p
  end.

(** [s.substring(start, end)]: both indices are clamped to [0, length] and
    swapped when [start > end]; [end] absent means the length. *)
Definition clamp (len k : Z) : Z := Z.min (Z.max k 0) len.

Definition substring (s : jsstring) (start : Z) (end_ : option Z) : jsstring :=
  let len := Z.of_nat (length s) in
  let a := clamp len start in
  let b := clamp len (default len end_) in
  let lo := Z.min a b in
  let hi := Z.max a b in
  take (Z.to_nat (hi - lo)) (drop (Z.to_nat lo) s).

(** [s.replace(pat, rep)] with a string pattern: the first occurrence only.
    ([rep] holds no [$], so it is inserted literally.) *)
Fixpoint replace (s pat rep : jsstring) : jsstring :=
  if startsWith s pat then rep ++ drop (length pat) s
  else match s with
       | [] => []
       | c :: s' => c :: replace s' pat rep
       end.

(** [s.trim()]: white space and line terminators of ECMAScript. *)
Definition isWhiteSpace (c : jschar) : bool :=
  ((9 <=? c) && (c <=? 13) || (c =? 32) || (c =? 160) || (c =? 5760)
   || (8192 <=? c) && (c <=? 8202) || (c =? 8232) || (c =? 8233)
   || (c =? 8239) || (c =? 8287) || (c =? 12288) || (c =? 65279))%N.

Fixpoint trimStart (s : jsstring) : jsstring :=
  match s with
  | [] => []
  | c :: s' => if isWhiteSpace c then trimStart s' else s
  end.

Definition trim (s : jsstring) : jsstring :=
  reverse (trimStart (reverse (trimStart s))).

(** [s.split(sep)] for a separator of one code unit. *)
Fixpoint split (s : jsstring) (sep : jschar) : list jsstring :=
  match s with
  | [] => [[]]
  | c :: s' =>
      if (c =? sep)%N then [] :: split s' sep
      else match split s' sep with
           | t :: ts => (c :: t) :: ts
           | [] => [[c]]
           end
  end.

(** [arr.join(sep)] *)
Fixpoint join (arr : list jsstring) (sep : jsstring) : jsstring :=
  match arr with
  | [] => []
  | [x] => x
  | x :: rest => x ++ sep ++ join rest sep
  end.

(** [arr.includes(item)] on an array of strings. *)
Definition arr_includes (arr : list jsstring) (item : jsstring) : bool :=
  bool_decide (item ∈ arr).

End JS.
Import JS.

(** ** Constants of the command *)

Definition EXCLUDE_SCRIPTS : bool := true.
Definition EXCLUDED_HREFS : list jsstring := [js "/"; js "#"].
Definition SIMULTANEOUS_REQUESTS : nat := 100.
Definition TEXT_SEPARATOR : jsstring := js ", ".

Inductive paragraphs_or_words := words | paragraphs.
Definition PARAGRAPHS_OR_WORDS : paragraphs_or_words := words.

Definition NO_URL_MSG : jsstring := js "The --url parameter is mandatory.".
Definition INVALID_URL_MSG : jsstring :=
  js "The --url parameter is not a valid URL.".
Definition INVALID_MAXDIST_MSG : jsstring :=
  js "The --maxdist parameter must be greater than 0.".

Definition DEFAULT_MAXDIST : Z := 1.
Definition DEFAULT_DB_NAME : jsstring := js "crawler.JSON".

(** ** URL normaliser *)

(** [addHttpIfMissing] *)
Definition addHttpIfMissing (mainUrl href : jsstring) : jsstring :=
  if startsWith href (js "http") then href
  else if startsWith href (js "/") && endsWith mainUrl (js "/")
       then mainUrl ++ substring href 1 None
  else if negb (startsWith href (js "/")) && negb (endsWith mainUrl (js "/"))
       then mainUrl ++ js "/" ++ href
  else mainUrl ++ href.

(** [addWWWIfMissing] *)
Definition addWWWIfMissing (url : jsstring) : jsstring :=
  if includes url (js "www.") then url
  else replace url (js "://") (js "://www.").

(** [deleteParamsFromUrl] *)
Definition deleteParamsFromUrl (url : jsstring) : jsstring :=
  if includes url (js "?") then substring url 0 (Some (indexOf url (js "?")))
  else url.

(** [processHrefValue] *)
Definition processHrefValue (mainUrl href : jsstring) : jsstring :=
  let href := addHttpIfMissing mainUrl href in
  let href := addWWWIfMissing href in
  let href := deleteParamsFromUrl href in
  href.


(** ** Page extractor *)

(** The one regular expression of [EXCLUDE_REGEXS_FROM_TEXT],
    [/\([^0-9]*\d+[0-9]*\)/g].  A regular expression is represented by its
    matcher at the head of the input: the length of the match, if any.  For
    this expression the match is forced: after the opening parenthesis the
    star takes the whole run of non-digits (what follows must be a digit),
    then the whole run of digits (what follows must be the closing
    parenthesis). *)
Definition regexp := jsstring -> option nat.

Definition isDigit (c : jschar) : bool := ((48 <=? c) && (c <=? 57))%N.

Fixpoint run_length (p : jschar -> bool) (s : jsstring) : nat :=
  match s with
  | [] => O
  | c :: s' => if p c then S (run_length p s') else O
  end.

Definition parenthesizedNumber : regexp := fun s =>
  match s with
  | c :: s1 =>
      if (c =? 40)%N then
        let n1 := run_length (fun c => negb (isDigit c)) s1 in
        let s2 := drop n1 s1 in
        let n2 := run_length isDigit s2 in
        match n2, drop n2 s2 with
        | S _, d :: _ => if (d =? 41)%N then Some (1 + n1 + n2 + 1)%nat else None
        | _, _ => None
        end
      else None
  | [] => None
  end.

Definition EXCLUDE_REGEXS_FROM_TEXT : list regexp := [parenthesizedNumber].

(** [s.replaceAll(re, '')] for a global expression without empty matches:
    scan from the left, drop each match and resume after it.  [skip] counts
    the code units of the current match still to drop. *)
Fixpoint replaceAll_from (skip : nat) (s : jsstring) (re : regexp) : jsstring :=
  match s with
  | [] => []
  | c :: s' =>
      match skip with
      | S k => replaceAll_from k s' re
      | O =>
          match re s with
          | Some (S k) => replaceAll_from k s' re
          | _ => c :: replaceAll_from O s' re
          end
      end
  end.

Definition replaceAll (s : jsstring) (re : regexp) : jsstring :=
  replaceAll_from O s re.

(** [utfWordsRegex.test(word)]:
    [/^[^\u0000-@[-`{-¿ʰ-ͯ×÷ -⯿]+$/] *)
Definition utfWordChar (c : jschar) : bool :=
  negb ((c <=? 0x40) || (0x5B <=? c) && (c <=? 0x60)
        || (0x7B <=? c) && (c <=? 0xBF) || (0x2B0 <=? c) && (c <=? 0x36F)
        || (c =? 0xD7) || (c =? 0xF7) || (0x2000 <=? c) && (c <=? 0x2BFF))%N.

Definition utfWordsRegex_test (word : jsstring) : bool :=
  truthy word && forallb utfWordChar word.

(** [pushUnique] *)
Definition pushUnique (arr : list jsstring) (item : jsstring) : list jsstring :=
  if negb (arr_includes arr item) then arr ++ [item] else arr.

(** The document tree handed back by [cheerio.load]. *)
#[local] Set Warnings "-register-all".
Inductive node :=
| TextNode (data : jsstring)
| Element (name : jsstring) (attribs : list (jsstring * jsstring))
          (children : list node).

(** [$(element).text()]: the text of all descendants. *)
Fixpoint text (n : node) : jsstring :=
  match n with
  | TextNode d => d
  | Element _ _ cs => concat (List.map text cs)
  end.

(** [$(element).clone().children().remove().end().text()]: the text nodes
    that are direct children. *)
Definition ownText (n : node) : jsstring :=
  match n with
  | TextNode d => d
  | Element _ _ cs =>
      concat (List.map (fun c => match c with TextNode d => d | _ => [] end) cs)
  end.

(** [$('*')]: every element, in document order. *)
Fixpoint elementsOf (n : node) : list node :=
  match n with
  | TextNode _ => []
  | Element _ _ cs => n :: concat (List.map elementsOf cs)
  end.

Definition allElements (doc : list node) : list node :=
  concat (List.map elementsOf doc).

(** [$(element).is(tag)] *)
Definition is_ (n : node) (tag : jsstring) : bool :=
  match n with
  | TextNode _ => false
  | Element name _ _ => bool_decide (name = tag)
  end.

(** [$(element).attr(key)] *)
Fixpoint assoc (key : jsstring) (l : list (jsstring * jsstring)) : option jsstring :=
  match l with
  | [] => None
  | (k, v) :: l' => if bool_decide (k = key) then Some v else assoc key l'
  end.

Definition attr (n : node) (key : jsstring) : option jsstring :=
  match n with
  | TextNode _ => None
  | Element _ a _ => assoc key a
  end.

Record IprocessedPage := {
  url : jsstring;
  title : jsstring;
  texts : jsstring;
  links : list jsstring
}.

(** The three locals of [processPage] that the callback of [each] updates. *)
Record extraction := {
  pageTitle : jsstring;
  findedUrls : list jsstring;
  findedText : list jsstring
}.

(** Lines 473-475: one word. *)
Definition pushWord (findedText : list jsstring) (word : jsstring)
  : list jsstring :=
  if truthy word && utfWordsRegex_test word then pushUnique findedText word
  else findedText.

(** The [else] branch of line 467: the words of [innerText]. *)
Definition pushWords (findedText : list jsstring) (innerText : jsstring)
  : list jsstring :=
  foldl pushWord findedText (split innerText 32%N).

(** Lines 457-478: the text of one element that is not a title. *)
Definition collectText (mode : paragraphs_or_words) (findedText : list jsstring)
    (element : node) : list jsstring :=
  let innerText := ownText element in
  let innerText := trim innerText in
  let innerText := foldl replaceAll innerText EXCLUDE_REGEXS_FROM_TEXT in
  if truthy innerText then
    match mode with
    | paragraphs => pushUnique findedText innerText
    | words => pushWords findedText innerText
    end
  else findedText.

(** Lines 480-495: the link of one element. *)
Definition collectLink (mainUrl : jsstring) (findedUrls : list jsstring)
    (element : node) : list jsstring :=
  if is_ element (js "a") then
    match attr element (js "href") with
    | Some href =>
        if truthy href && negb (arr_includes EXCLUDED_HREFS href)
           && negb (startsWith href (js "mailto"))
        then
          let normalizedUrl := processHrefValue mainUrl href in
          if startsWith normalizedUrl mainUrl
          then pushUnique findedUrls normalizedUrl
          else findedUrls
        else findedUrls
    | None => findedUrls
    end
  else findedUrls.

(** The callback of [$('*').each]. *)
Definition eachElement (mainUrl : jsstring) (st : extraction) (element : node)
  : extraction :=
  if EXCLUDE_SCRIPTS
     && (is_ element (js "script") || is_ element (js "noscript"))
  then st
  else
    let st :=
      if is_ element (js "title")
      then {| pageTitle := text element;
              findedUrls := findedUrls st;
              findedText := findedText st |}
      else {| pageTitle := pageTitle st;
              findedUrls := findedUrls st;
              findedText := collectText PARAGRAPHS_OR_WORDS (findedText st) element |}
    in
    {| pageTitle := pageTitle st;
       findedUrls := collectLink mainUrl (findedUrls st) element;
       findedText := findedText st |}.

(** What [axios.get(url)] settles to, for an answer whose body is text.
    (axios hands a JSON body over parsed; such answers are not modelled.) *)
Inductive axios_result :=
| Rejected
| Resolved (status : Z) (data : jsstring).

(** One record of the output object. *)
Record Rec := {
  r_url : jsstring;
  r_title : jsstring;
  r_texts : jsstring
}.

#[global] Instance Rec_eq_dec : EqDecision Rec.
Proof. solve_decision. Defined.

(** [chunkArray]: the loop [for (i = 0; i < arr.length; i += chunkSize)]. *)
Fixpoint chunk_loop {A} (fuel : nat) (arr : list A) (chunkSize i : nat)
  : list (list A) :=
  match fuel with
  | O => []
  | S f =>
      if (i <? length arr)%nat
      then take chunkSize (drop i arr) :: chunk_loop f arr chunkSize (i + chunkSize)
      else []
  end.

Definition chunkArray {A} (arr : list A) (chunkSize : nat) : list (list A) :=
  chunk_loop (length arr) arr chunkSize 0.

(** [validateUrl]:
    [/^(https?|ftp|file):\/\/[-A-Z0-9+&@#\/%?=~_|!:,.;]*[-A-Z0-9+&@#\/%=~_|]/i] *)
Definition toUpper (c : jschar) : jschar :=
  if ((97 <=? c) && (c <=? 122))%N then (c - 32)%N else c.

Definition isAlnumI (c : jschar) : bool :=
  let u := toUpper c in
  ((65 <=? u) && (u <=? 90) || isDigit c)%N.

(** The last class, [-A-Z0-9+&@#\/%=~_|]. *)
Definition urlLastChar (c : jschar) : bool :=
  isAlnumI c || bool_decide (c ∈ js "-+&@#/%=~_|").

(** The starred class, [-A-Z0-9+&@#\/%?=~_|!:,.;]. *)
Definition urlChar (c : jschar) : bool :=
  isAlnumI c || bool_decide (c ∈ js "-+&@#/%?=~_|!:,.;").

(** [[...]*[...]] at the head of [s]: some prefix of starred characters is
    followed by a character of the last class. *)
Fixpoint urlTail (s : jsstring) : bool :=
  match s with
  | [] => false
  | c :: s' => urlLastChar c || (urlChar c && urlTail s')
  end.

(** Case-insensitive [startsWith], for the schemes. *)
Definition startsWithI (s p : jsstring) : bool :=
  startsWith (List.map toUpper s) (List.map toUpper p).

Definition validateUrl (url : jsstring) : bool :=
  existsb (fun scheme =>
             startsWithI url (scheme ++ js "://")
             && urlTail (drop (length scheme + 3) url))
          [js "https"; js "http"; js "ftp"; js "file"].

(** ** The command, over a fixed web *)

Record IOptions := {
  o_url : option jsstring;
  o_maxdist : option Z;
  o_db : option jsstring
}.

(** The variables of [runCrawler] that outlive one level. *)
Record state := {
  currentLevel : Z;
  visitedUrls : list jsstring;
  urlsToVisit : list jsstring;
  stackedOutput : gmap Z Rec;
  autoincrmentId : Z
}.

(** What the loop over the settled promises (lines 395-415) updates. *)
Record merged := {
  m_output : gmap Z Rec;
  m_id : Z;
  m_visited : list jsstring;
  m_newUrlsToVisit : list jsstring
}.

(** Lines 408-414: the links of one page. *)
Definition stageLinks (visited newUrlsToVisit links : list jsstring)
  : list jsstring :=
  foldl (fun nu link =>
           if negb (arr_includes visited link) && negb (arr_includes nu link)
           then nu ++ [link] else nu)
        newUrlsToVisit links.

(** Lines 397-414: one settled promise. *)
Definition mergePage (m : merged) (pr : option IprocessedPage) : merged :=
  match pr with
  | None => m
  | Some pr =>
      let output :=
        <[m_id m := {| r_url := url pr; r_title := title pr; r_texts := texts pr |}]>
          (m_output m) in
      let visited := m_visited m ++ [url pr] in
      {| m_output := output;
         m_id := m_id m + 1;
         m_visited := visited;
         m_newUrlsToVisit := stageLinks visited (m_newUrlsToVisit m) (links pr) |}
  end.

Section Crawler.

(** The two external capabilities. *)
Variable axios_get : jsstring -> axios_result.
Variable cheerio_load : jsstring -> list node.

(** [extractUrl]: [undefined] unless the status is 200 and the body truthy. *)
Definition extractUrl (url : jsstring) : option jsstring :=
  match axios_get url with
  | Resolved status data =>
      if (status =? 200) && truthy data then Some data else None
  | Rejected => None
  end.

(** [processPage] *)
Definition processPage (mainUrl url : jsstring) : option IprocessedPage :=
  match extractUrl url with
  | None => None
  | Some htmlContent =>
      if negb (truthy htmlContent) then None
      else
        let st :=
          foldl (eachElement mainUrl)
                {| pageTitle := []; findedUrls := []; findedText := [] |}
                (allElements (cheerio_load htmlContent)) in
        Some {| url := url;
                title := pageTitle st;
                texts := join (findedText st) TEXT_SEPARATOR;
                links := findedUrls st |}
  end.

(** Lines 393-415: one chunk, all its pages awaited, then merged in the
    order of the chunk ([Promise.all] keeps the order of its argument). *)
Definition processChunk (mainUrl : jsstring) (m : merged) (chunk : list jsstring)
  : merged :=
  let allPromises := List.map (processPage mainUrl) chunk in
  foldl mergePage m allPromises.

(** Lines 376-420: the body of the [while] loop. *)
Definition crawlLevel (mainUrl : jsstring) (st : state) : state :=
  let chunksOfUrls := chunkArray (urlsToVisit st) SIMULTANEOUS_REQUESTS in
  let m := foldl (processChunk mainUrl)
                 {| m_output := stackedOutput st;
                    m_id := autoincrmentId st;
                    m_visited := visitedUrls st;
                    m_newUrlsToVisit := [] |}
                 chunksOfUrls in
  {| currentLevel := currentLevel st + 1;
     visitedUrls := m_visited m;
     urlsToVisit := m_newUrlsToVisit m;
     stackedOutput := m_output m;
     autoincrmentId := m_id m |}.

(** The merge of a level with the frontier taken as one array (the grouping
    in chunks bounds the requests in flight and nothing else, see
    [crawlLevel_flat]). *)
Definition mergeAll (mainUrl : jsstring) (st : state) : merged :=
  foldl mergePage
        {| m_output := stackedOutput st; m_id := autoincrmentId st;
           m_visited := visitedUrls st; m_newUrlsToVisit := [] |}
        (List.map (processPage mainUrl) (urlsToVisit st)).

(** [while (currentLevel <= maxdist)], at most [fuel] iterations.  The depth
    is an integer here; [Number(val)] can also hand over a fraction, NaN or
    Infinity, which are not modelled. *)
Fixpoint whileLevels (fuel : nat) (mainUrl : jsstring) (maxdist : Z) (st : state)
  : state :=
  match fuel with
  | O => st
  | S f =>
      if currentLevel st <=? maxdist
      then whileLevels f mainUrl maxdist (crawlLevel mainUrl st)
      else st
  end.

Definition initialState (mainUrl : jsstring) : state :=
  {| currentLevel := 1;
     visitedUrls := [];
     urlsToVisit := [mainUrl];
     stackedOutput := ∅;
     autoincrmentId := 1 |}.

(** The state when the loop of [runCrawler] is left; [Z.to_nat maxdist]
    iterations are enough (see [crawl_leaves_loop]). *)
Definition crawl (mainUrl : jsstring) (maxdist : Z) : state :=
  whileLevels (Z.to_nat maxdist) mainUrl maxdist (initialState mainUrl).

(** [runCrawler]: the file name and the object handed to [writeFile]. *)
Definition runCrawler (mainUrl : jsstring) (maxdist : Z) (dbName : jsstring)
  : jsstring * gmap Z Rec :=
  (dbName, stackedOutput (crawl mainUrl maxdist)).

(** [run]: a message on the console and nothing else, or the crawl. *)
Definition run (options : IOptions) : jsstring + jsstring * gmap Z Rec :=
  let url := o_url options in
  let maxdist := o_maxdist options in
  let db := o_db options in
  match url with
  | None => inl NO_URL_MSG
  | Some url =>
      if negb (truthy url) then inl NO_URL_MSG
      else if negb (validateUrl url) then inl INVALID_URL_MSG
      else if match maxdist with
              | Some d => negb (d =? 0) && (d <? 1)
              | None => false
              end
      then inl INVALID_MAXDIST_MSG
      else
        inr (runCrawler url
               (match maxdist with
                | Some d => if negb (d =? 0) then d else DEFAULT_MAXDIST
                | None => DEFAULT_MAXDIST
                end)
               (match db with
                | Some n => if truthy n then n else DEFAULT_DB_NAME
                | None => DEFAULT_DB_NAME
                end))
  end.

End Crawler.

(** ** Concrete webs *)

Module Webs.

(** A web given by a table; a URL that is not listed cannot be reached. *)
Fixpoint table_get (t : list (jsstring * axios_result)) (url : jsstring)
  : axios_result :=
  match t with
  | [] => Rejected
  | (u, r) :: t' => if bool_decide (u = url) then r else table_get t' url
  end.

(** A parser given by a table from bodies to trees. *)
Fixpoint table_load (t : list (jsstring * list node)) (html : jsstring)
  : list node :=
  match t with
  | [] => []
  | (h, d) :: t' => if bool_decide (h = html) then d else table_load t' html
  end.

Definition anchor (href : string) : node :=
  Element (js "a") [(js "href", js href)] [].

(** [<html><head><title>t</title></head><body>...</body></html>] *)
Definition document (t : string) (body : list node) : list node :=
  [Element (js "html") []
     [Element (js "head") [] [Element (js "title") [] [TextNode (js t)]];
      Element (js "body") [] body]].

Definition A : jsstring := js "http://www.x.com/".
Definition B : jsstring := js "http://www.x.com/b".
Definition C : jsstring := js "http://www.x.com/c".
Definition D2 : jsstring := js "http://www.x.com/d2".

(** The page of the end-to-end scenario. *)
Definition home_html : jsstring :=
  js "<title>Home</title><p>Welcome (42)</p><a href=/about></a>".
Definition home_doc : list node :=
  document "Home"
    [Element (js "p") [] [TextNode (js "Welcome (42)")]; anchor "/about"].

Definition home_get := table_get [(A, Resolved 200 home_html)].
Definition home_load := table_load [(home_html, home_doc)].

(** The chain A -> B -> C -> D2. *)
Definition chain_get :=
  table_get [(A, Resolved 200 (js "a")); (B, Resolved 200 (js "b"));
             (C, Resolved 200 (js "c")); (D2, Resolved 200 (js "d2"))].
Definition chain_load :=
  table_load [(js "a", document "A" [anchor "/b"]);
              (js "b", document "B" [anchor "/c"]);
              (js "c", document "C" [anchor "/d2"]);
              (js "d2", document "D2" [])].

(** A links to B and C, and B links to C as well. *)
Definition diamond_get :=
  table_get [(A, Resolved 200 (js "a")); (B, Resolved 200 (js "b"));
             (C, Resolved 200 (js "c"))].
Definition diamond_load :=
  table_load [(js "a", document "A" [anchor "/b"; anchor "/c"]);
              (js "b", document "B" [anchor "/c"]);
              (js "c", document "C" [])].


(** A page without a title element. *)
Definition untitled_get := table_get [(A, Resolved 200 (js "a"))].
Definition untitled_load :=
  table_load [(js "a", [Element (js "p") [] [TextNode (js "text")]])].

(** A page whose anchors are all of the kinds that are not followed. *)
Definition unfollowed_get := table_get [(A, Resolved 200 (js "a"))].
Definition unfollowed_load :=
  table_load [(js "a", document "A" [anchor "#"; anchor "/"; anchor "mailto:x@y.com";
                                     Element (js "a") [] [TextNode (js "top")]])].

(** The page of the end-to-end scenario, with or without a text in its
    link. *)
Definition linked_doc (linkText : option jsstring) : list node :=
  document "Home"
    [Element (js "p") [] [TextNode (js "Welcome (42)")];
     Element (js "a") [(js "href", js "/about")]
       (match linkText with Some t => [TextNode t] | None => [] end)].

Definition about_html : jsstring :=
  js "<title>Home</title><p>Welcome (42)</p><a href=/about>About</a>".
Definition about_get := table_get [(A, Resolved 200 about_html)].
Definition about_load := table_load [(about_html, linked_doc (Some (js "About")))].

(** A links to B, and B links back to A and on to C. *)
Definition cycle_get :=
  table_get [(A, Resolved 200 (js "a")); (B, Resolved 200 (js "b"));
             (C, Resolved 200 (js "c"))].
Definition cycle_load :=
  table_load [(js "a", document "A" [anchor "/b"]);
              (js "b", document "B" [anchor "/"; anchor "http://www.x.com/"; anchor "/c"]);
              (js "c", document "C" [])].

(** A document with two title elements. *)
Definition twotitles_doc : list node :=
  [Element (js "html") []
     [Element (js "head") []
        [Element (js "title") [] [TextNode (js "First")];
         Element (js "title") [] [TextNode (js "Second")]];
      Element (js "body") [] [Element (js "p") [] [TextNode (js "text")]]]].
Definition twotitles_get := table_get [(A, Resolved 200 (js "a"))].
Definition twotitles_load := table_load [(js "a", twotitles_doc)].

End Webs.
Import Webs.


(** ** Notions the properties are stated with *)

(** [p] occurs in [s] as a contiguous block. *)
Definition occurs (p s : jsstring) : Prop := exists l r, s = l ++ p ++ r.

(** [s = l ++ p ++ r] is the leftmost occurrence of [p] in [s]. *)
Definition leftmost (p l r s : jsstring) : Prop :=
  s = l ++ p ++ r /\
  forall l' r', s = l' ++ p ++ r' -> (length l <= length l')%nat.

(** The part of [s] before its first [c]; all of [s] when there is none. *)
Fixpoint before (c : jschar) (s : jsstring) : jsstring :=
  match s with
  | [] => []
  | d :: s' => if (d =? c)%N then [] else d :: before c s'
  end.

(** The three steps of the normaliser, as relations between the strings. *)
Definition absolutized (siteRoot href a : jsstring) : Prop :=
  (js "http" `prefix_of` href -> a = href) /\
  (~ js "http" `prefix_of` href ->
   js "/" `prefix_of` href -> js "/" `suffix_of` siteRoot ->
   a = siteRoot ++ drop 1 href) /\
  (~ js "http" `prefix_of` href ->
   ~ js "/" `prefix_of` href -> ~ js "/" `suffix_of` siteRoot ->
   a = siteRoot ++ js "/" ++ href) /\
  (~ js "http" `prefix_of` href ->
   (js "/" `prefix_of` href <-> ~ js "/" `suffix_of` siteRoot) ->
   a = siteRoot ++ href).

Definition canonicalized (a b : jsstring) : Prop :=
  (occurs (js "www.") a -> b = a) /\
  (~ occurs (js "www.") a -> ~ occurs (js "://") a -> b = a) /\
  (~ occurs (js "www.") a ->
   forall l r, leftmost (js "://") l r a -> b = l ++ js "://www." ++ r).

Definition stripped (b c : jsstring) : Prop :=
  (63%N ∉ b -> c = b) /\
  (forall l r, b = l ++ 63%N :: r -> 63%N ∉ l -> c = l).

(** The absolutising step as the specification words it: an href that
    begins with a scheme (letters, digits, [+], [-], [.] after a first
    letter, then a colon) is left as it is. *)
Definition isAlpha (c : jschar) : bool :=
  let u := toUpper c in ((65 <=? u) && (u <=? 90))%N.

Fixpoint schemeTail (s : jsstring) : bool :=
  match s with
  | [] => false
  | c :: s' =>
      (c =? 58)%N
      || ((isAlnumI c || bool_decide (c ∈ js "+-.")) && schemeTail s')
  end.

Definition beginsWithScheme (href : jsstring) : bool :=
  match href with
  | c :: s => isAlpha c && schemeTail s
  | [] => false
  end.

Definition spec_absolutize (siteRoot href : jsstring) : jsstring :=
  if beginsWithScheme href then href
  else if startsWith href (js "/") && endsWith siteRoot (js "/")
       then siteRoot ++ substring href 1 None
  else if negb (startsWith href (js "/")) && negb (endsWith siteRoot (js "/"))
       then siteRoot ++ js "/" ++ href
  else siteRoot ++ href.

Definition spec_normalize (siteRoot href : jsstring) : jsstring :=
  deleteParamsFromUrl (addWWWIfMissing (spec_absolutize siteRoot href)).



(** A fetch fails: network error, status other than 200, or empty body. *)
Definition fetchFails (get : jsstring -> axios_result) (u : jsstring) : Prop :=
  match get u with
  | Rejected => True
  | Resolved status data => status <> 200 \/ data = []
  end.

(** [hops n u v]: [v] is reached from [u] by following [n] links, each one
    a link the extractor found on a page that could be fetched. *)
Inductive hops (get : jsstring -> axios_result) (load : jsstring -> list node)
    (mainUrl : jsstring) : nat -> jsstring -> jsstring -> Prop :=
| hops_O u : hops get load mainUrl O u u
| hops_S n u v w pr :
    hops get load mainUrl n u v ->
    processPage get load mainUrl v = Some pr ->
    w ∈ links pr ->
    hops get load mainUrl (S n) u w.

(** The ids in use are exactly 1 .. next - 1. *)
Definition dense (store : gmap Z Rec) (next : Z) : Prop :=
  1 <= next /\ forall id, is_Some (store !! id) <-> 1 <= id < next.

(** A URL has a record in the store. *)
Definition recorded (u : jsstring) (store : gmap Z Rec) : Prop :=
  exists id r, store !! id = Some r /\ r_url r = u.

(** Every URL of the visited array and of the store was fetched with
    success, and every URL of the frontier of level [n + 1] is [n] links away
    from the seed, every recorded URL fewer than [n]. *)
Definition reached (get : jsstring -> axios_result) (load : jsstring -> list node)
    (mainUrl : jsstring) (n : nat) (st : state) : Prop :=
  (forall u, u ∈ urlsToVisit st -> hops get load mainUrl n mainUrl u)
  /\ (forall u, recorded u (stackedOutput st) ->
        is_Some (processPage get load mainUrl u) /\
        exists j, (j < n)%nat /\ hops get load mainUrl j mainUrl u)
  /\ (forall u, u ∈ visitedUrls st -> is_Some (processPage get load mainUrl u)).

(** A link of a page is a normalised href that begins with the seed. *)
Definition sameSiteLink (mainUrl w : jsstring) : Prop :=
  exists href, w = processHrefValue mainUrl href /\ startsWith w mainUrl = true.

(** ** Option parsers *)

(** [parseDb] *)
Definition parseDb (val : jsstring) : jsstring :=
  if negb (endsWith val (js ".JSON")) then val ++ js ".JSON" else val.

(** [parseUrl] *)
Definition parseUrl (val : jsstring) : jsstring := val.

(** How often [u] stands in an array. *)
Definition occurrences (u : jsstring) (arr : list jsstring) : nat :=
  length (filter (fun x => x = u) arr).

(** An element that the callback of [each] leaves at once. *)
Definition isScript (e : node) : bool :=
  is_ e (js "script") || is_ e (js "noscript").

(** An href that [processPage] does not follow. *)
Definition excludedHref (href : option jsstring) : bool :=
  match href with
  | None => true
  | Some h =>
      negb (truthy h) || arr_includes EXCLUDED_HREFS h
      || startsWith h (js "mailto")
  end.

(** The visited array is the list of the recorded URLs, in the order of the
    ids. *)
Definition aligned (store : gmap Z Rec) (next : Z) (visited : list jsstring)
  : Prop :=
  next = Z.of_nat (length visited) + 1
  /\ forall i : nat, r_url <$> store !! (Z.of_nat i + 1) = visited !! i.


(** * Properties *)

(** ** The string operations *)

Section StringFacts.

Lemma startsWith_prefix (s p : jsstring) :
  startsWith s p = true <-> p `prefix_of` s.
Proof.
  revert s; induction p as [|c p IH]; intros s; simpl.
  - split; [intros _; apply prefix_nil | done].
  - destruct s as [|d s].
    + split; [done | intros H; by apply prefix_nil_not in H].
    + rewrite andb_true_iff, N.eqb_eq, IH. split.
      * intros [-> H]. by apply prefix_cons.
      * intros H. split; [symmetry; by eapply prefix_cons_inv_1 | by eapply prefix_cons_inv_2].
Qed.

Lemma startsWith_false (s p : jsstring) :
  startsWith s p = false <-> ~ p `prefix_of` s.
Proof. rewrite <- startsWith_prefix. by destruct (startsWith s p). Qed.

Lemma endsWith_suffix (s p : jsstring) :
  endsWith s p = true <-> p `suffix_of` s.
Proof.
  unfold endsWith. rewrite startsWith_prefix. symmetry. apply suffix_prefix_reverse.
Qed.

Lemma endsWith_false (s p : jsstring) :
  endsWith s p = false <-> ~ p `suffix_of` s.
Proof. rewrite <- endsWith_suffix. by destruct (endsWith s p). Qed.

Lemma includes_occurs (s p : jsstring) :
  includes s p = true <-> occurs p s.
Proof.
  induction s as [|c s IH].
  - simpl. rewrite orb_false_r, startsWith_prefix. split.
    + intros [r ->]. by exists [], r.
    + intros (l & r & H). destruct l; [by exists r|done].
  - simpl. rewrite orb_true_iff, startsWith_prefix, IH. split.
    + intros [[r ->] | (l & r & ->)]; [by exists [], r | by exists (c :: l), r].
    + intros (l & r & H). destruct l as [|d l]; simpl in H.
      * left. by exists r.
      * right. exists l, r. by inversion H.
Qed.

Lemma includes_false (s p : jsstring) :
  includes s p = false <-> ~ occurs p s.
Proof. rewrite <- includes_occurs. by destruct (includes s p). Qed.

Lemma substring_from_1 (s : jsstring) : substring s 1 None = drop 1 s.
Proof.
  unfold substring, clamp; simpl.
  destruct s as [|c s]; [done|].
  replace (Z.min (Z.max 1 0) (Z.of_nat (length (c :: s)))) with 1
    by (simpl length; lia).
  replace (Z.min (Z.max (Z.of_nat (length (c :: s))) 0) (Z.of_nat (length (c :: s))))
    with (Z.of_nat (length (c :: s))) by lia.
  rewrite Z.min_l, Z.max_r by (simpl length; lia).
  change (Z.to_nat 1) with 1%nat.
  apply take_ge. rewrite length_drop. simpl length. lia.
Qed.

Lemma substring_to (s : jsstring) (k : Z) :
  0 <= k -> substring s 0 (Some k) = take (Z.to_nat k) s.
Proof.
  intros Hk. unfold substring, clamp; simpl.
  set (len := Z.of_nat (length s)).
  assert (0 <= len) by (unfold len; lia).
  replace (Z.min (Z.max 0 0) len) with 0 by lia.
  replace (Z.min 0 (Z.min (Z.max k 0) len)) with 0 by lia.
  replace (Z.max 0 (Z.min (Z.max k 0) len) - 0) with (Z.min k len) by lia.
  simpl. destruct (Z.le_gt_cases k len).
  - by rewrite Z.min_l.
  - rewrite Z.min_r by lia. unfold len in *. rewrite Nat2Z.id.
    rewrite !take_ge; [done | lia | rewrite length_drop; lia].
Qed.

Lemma includes_singleton (s : jsstring) (c : jschar) :
  includes s [c] = true <-> c ∈ s.
Proof.
  induction s as [|d s IH]; simpl.
  - split; [done | by intros ?%elem_of_nil].
  - rewrite orb_true_iff, andb_true_r, N.eqb_eq, IH, elem_of_cons.
    split; (intros [H|H]; [left; congruence | by right]).
Qed.

Lemma indexOf_from_singleton (s : jsstring) (c : jschar) (i : Z) :
  c ∈ s ->
  before c s = take (Z.to_nat (indexOf_from s [c] i - i)) s /\ i <= indexOf_from s [c] i.
Proof.
  revert i; induction s as [|d s IH]; intros i Hin.
  - by apply elem_of_nil in Hin.
  - simpl. rewrite andb_true_r. destruct (N.eqb_spec d c) as [->|Hne].
    + rewrite Z.sub_diag. split; [done | lia].
    + apply elem_of_cons in Hin as [->|Hin]; [done|].
      destruct (IH (i + 1) Hin) as [E Hle]. split; [|lia].
      replace (Z.to_nat (indexOf_from s [c] (i + 1) - i))
        with (S (Z.to_nat (indexOf_from s [c] (i + 1) - (i + 1)))) by lia.
      simpl. by rewrite <- E.
Qed.

Lemma before_notin (c : jschar) (s : jsstring) : c ∉ s -> before c s = s.
Proof.
  induction s as [|d s IH]; [done|]. intros Hn. simpl.
  apply not_elem_of_cons in Hn as [Hne Hn].
  destruct (N.eqb_spec d c); [congruence|]. by rewrite IH.
Qed.

Lemma before_app (c : jschar) (l r : jsstring) :
  c ∉ l -> before c (l ++ c :: r) = l.
Proof.
  induction l as [|d l IH]; simpl; intros Hn.
  - by rewrite N.eqb_refl.
  - apply not_elem_of_cons in Hn as [Hne Hn].
    destruct (N.eqb_spec d c); [congruence|]. by rewrite IH.
Qed.

Lemma before_prefix (c : jschar) (s : jsstring) : before c s `prefix_of` s.
Proof.
  induction s as [|d s IH]; simpl; [done|].
  destruct (d =? c)%N; [apply prefix_nil | by apply prefix_cons].
Qed.

(** [deleteParamsFromUrl] keeps what stands before the first question mark. *)
Lemma deleteParamsFromUrl_before (url : jsstring) :
  deleteParamsFromUrl url = before 63%N url.
Proof.
  unfold deleteParamsFromUrl. change (js "?") with [63%N].
  destruct (includes url [63%N]) eqn:E.
  - apply includes_singleton in E.
    destruct (indexOf_from_singleton url 63%N 0 E) as [Hb Hle].
    unfold indexOf. rewrite substring_to by done.
    by rewrite Hb, Z.sub_0_r.
  - symmetry. apply before_notin. intros H%includes_singleton. congruence.
Qed.

End StringFacts.

(** ** Chunks *)

Section Chunks.
Context {A : Type}.

Lemma chunk_loop_concat (arr : list A) (n : nat) :
  (1 <= n)%nat ->
  forall fuel i, (length arr - i <= fuel)%nat ->
    concat (chunk_loop fuel arr n i) = drop i arr.
Proof.
  intros Hn fuel; induction fuel as [|f IH]; intros i Hf; simpl.
  - rewrite drop_ge; [done | lia].
  - destruct (Nat.ltb_spec i (length arr)) as [Hlt|Hge].
    + simpl. rewrite IH by lia.
      rewrite <- (take_drop n (drop i arr)) at 2.
      by rewrite drop_drop.
    + rewrite drop_ge; [done | lia].
Qed.

(** The chunks, put end to end, are the array. *)
Lemma chunkArray_concat (arr : list A) (n : nat) :
  (1 <= n)%nat -> concat (chunkArray arr n) = arr.
Proof.
  intros Hn. unfold chunkArray. rewrite chunk_loop_concat; [done | done | lia].
Qed.

Lemma chunk_loop_length (arr : list A) (n : nat) fuel i :
  Forall (fun c => (length c <= n)%nat) (chunk_loop fuel arr n i).
Proof.
  revert i; induction fuel as [|f IH]; intros i; simpl; [constructor|].
  destruct (i <? length arr)%nat; constructor; [|apply IH].
  rewrite length_take. lia.
Qed.

(** No chunk holds more than [chunkSize] URLs. *)
Lemma chunkArray_bounded (arr : list A) (n : nat) :
  Forall (fun c => (length c <= n)%nat) (chunkArray arr n).
Proof. apply chunk_loop_length. Qed.

End Chunks.

(** ** The traversal engine *)

Section Engine.

Variable get : jsstring -> axios_result.
Variable load : jsstring -> list node.
Variable mainUrl : jsstring.

Local Abbreviation page := (processPage get load mainUrl).

Lemma processPage_url u pr : page u = Some pr -> url pr = u.
Proof.
  unfold page, processPage. destruct (extractUrl get u) as [h|]; [|done].
  destruct (negb (truthy h)); [done|]. by intros [= <-].
Qed.

Lemma processChunks_flat (chunks : list (list jsstring)) (m : merged) :
  foldl (processChunk get load mainUrl) m chunks
  = foldl mergePage m (List.map page (concat chunks)).
Proof.
  revert m; induction chunks as [|c cs IH]; intros m; simpl; [done|].
  rewrite IH, List.map_app, foldl_app. done.
Qed.

Lemma crawlLevel_flat (st : state) :
  crawlLevel get load mainUrl st =
  let m := mergeAll get load mainUrl st in
  {| currentLevel := currentLevel st + 1;
     visitedUrls := m_visited m;
     urlsToVisit := m_newUrlsToVisit m;
     stackedOutput := m_output m;
     autoincrmentId := m_id m |}.
Proof.
  unfold crawlLevel, mergeAll. rewrite processChunks_flat.
  rewrite chunkArray_concat; [done | unfold SIMULTANEOUS_REQUESTS; lia].
Qed.

(** An invariant of the merge loop holds after it when every successful
    page of the frontier preserves it. *)
Lemma merge_invariant (P : merged -> Prop) (frontier : list jsstring) :
  (forall m u pr, u ∈ frontier -> page u = Some pr -> P m ->
                  P (mergePage m (Some pr))) ->
  forall m, P m -> P (foldl mergePage m (List.map page frontier)).
Proof.
  induction frontier as [|u l IH]; intros Hstep m Hm; simpl; [done|].
  apply IH.
  - intros m' u' pr Hin. apply Hstep. by right.
  - destruct (page u) as [pr|] eqn:E; [|done].
    apply (Hstep m u pr); [by left | done | done].
Qed.

(** The loop is left: [Z.to_nat maxdist] iterations are enough. *)
Lemma whileLevels_iter (fuel : nat) (maxdist : Z) (st : state) :
  currentLevel st + Z.of_nat fuel = maxdist + 1 ->
  whileLevels get load fuel mainUrl maxdist st
  = Nat.iter fuel (crawlLevel get load mainUrl) st
  /\ currentLevel (whileLevels get load fuel mainUrl maxdist st) = maxdist + 1.
Proof.
  revert st; induction fuel as [|f IH]; intros st H; simpl.
  - split; [done | lia].
  - destruct (Z.leb_spec (currentLevel st) maxdist) as [Hle|Hgt]; [|lia].
    destruct (IH (crawlLevel get load mainUrl st)) as [E1 E2].
    { simpl. lia. }
    split; [|done]. rewrite E1. clear.
    induction f as [|f IHf]; [done|]. simpl in *. by rewrite IHf.
Qed.

Lemma crawl_iter (maxdist : Z) :
  crawl get load mainUrl maxdist
  = Nat.iter (Z.to_nat maxdist) (crawlLevel get load mainUrl) (initialState mainUrl).
Proof.
  unfold crawl. destruct (Z.le_gt_cases 0 maxdist) as [H|H].
  - apply whileLevels_iter. simpl. lia.
  - replace (Z.to_nat maxdist) with O by lia. done.
Qed.

Lemma crawl_leaves_loop (maxdist : Z) :
  (currentLevel (crawl get load mainUrl maxdist) <=? maxdist) = false.
Proof.
  apply Z.leb_gt. unfold crawl. destruct (Z.le_gt_cases 0 maxdist) as [H|H].
  - destruct (whileLevels_iter (Z.to_nat maxdist) maxdist (initialState mainUrl)) as [_ E].
    { simpl. lia. }
    rewrite E. lia.
  - replace (Z.to_nat maxdist) with O by lia. simpl. lia.
Qed.

Lemma crawl_succ (n : nat) :
  crawl get load mainUrl (Z.of_nat (S n))
  = crawlLevel get load mainUrl (crawl get load mainUrl (Z.of_nat n)).
Proof. rewrite !crawl_iter, !Nat2Z.id. done. Qed.

(** An invariant of the levels holds when the loop is left. *)
Lemma crawl_invariant (P : nat -> state -> Prop) :
  P O (initialState mainUrl) ->
  (forall n st, P n st -> P (S n) (crawlLevel get load mainUrl st)) ->
  forall maxdist, P (Z.to_nat maxdist) (crawl get load mainUrl maxdist).
Proof.
  intros H0 Hstep maxdist. rewrite crawl_iter.
  induction (Z.to_nat maxdist) as [|n IH]; simpl; [done | by apply Hstep].
Qed.

End Engine.

(** ** Identifiers *)

Section Identifiers.

Variable get : jsstring -> axios_result.
Variable load : jsstring -> list node.
Variable mainUrl : jsstring.

Lemma dense_size (store : gmap Z Rec) (next : Z) :
  dense store next -> Z.of_nat (size store) = next - 1.
Proof.
  intros [Hn H].
  assert (Hgen : forall n : nat, forall store : gmap Z Rec,
             (forall id, is_Some (store !! id) <-> 1 <= id < Z.of_nat n + 1) ->
             size store = n).
  { clear. induction n as [|n IH]; intros store H.
    - apply map_size_empty_iff, map_eq. intros id. rewrite lookup_empty.
      apply eq_None_not_Some. rewrite H. lia.
    - destruct (proj2 (H (Z.of_nat (S n))) ltac:(lia)) as [r Hr].
      rewrite <- (insert_delete_id store (Z.of_nat (S n)) r Hr).
      rewrite map_size_insert_None by apply lookup_delete_eq.
      f_equal. apply IH. intros id.
      destruct (decide (id = Z.of_nat (S n))) as [->|Hne].
      + rewrite lookup_delete_eq. split; [by intros [? ?] | lia].
      + rewrite lookup_delete_ne by done. rewrite H. lia. }
  rewrite (Hgen (Z.to_nat (next - 1)) store); [lia|].
  intros id. rewrite H. lia.
Qed.

Lemma mergePage_dense (m : merged) (pr : option IprocessedPage) :
  dense (m_output m) (m_id m) ->
  dense (m_output (mergePage m pr)) (m_id (mergePage m pr)).
Proof.
  destruct pr as [pr|]; [|done]. intros [Hn H]. simpl. split; [lia|].
  intros id. destruct (decide (id = m_id m)) as [->|Hne].
  - rewrite lookup_insert_eq. split; [lia | by eexists].
  - rewrite lookup_insert_ne by congruence. rewrite H. lia.
Qed.

(** A record, once written, is never overwritten. *)
Lemma mergePage_extends (m : merged) (pr : option IprocessedPage) :
  dense (m_output m) (m_id m) ->
  m_output m ⊆ m_output (mergePage m pr).
Proof.
  destruct pr as [pr|]; [|done]. intros [Hn H]. simpl.
  apply insert_subseteq. apply eq_None_not_Some. rewrite H. lia.
Qed.

Lemma crawlLevel_dense (st : state) :
  dense (stackedOutput st) (autoincrmentId st) ->
  dense (stackedOutput (crawlLevel get load mainUrl st))
        (autoincrmentId (crawlLevel get load mainUrl st))
  /\ stackedOutput st ⊆ stackedOutput (crawlLevel get load mainUrl st).
Proof.
  intros Hd. rewrite crawlLevel_flat. simpl. unfold mergeAll.
  set (m0 := {| m_output := stackedOutput st; m_id := autoincrmentId st;
                m_visited := visitedUrls st; m_newUrlsToVisit := [] |}).
  apply (merge_invariant get load mainUrl
           (fun m => dense (m_output m) (m_id m) /\ stackedOutput st ⊆ m_output m)).
  - intros m u pr _ _ [Hm Hs]. split; [by apply mergePage_dense|].
    etrans; [exact Hs | by apply mergePage_extends].
  - by split.
Qed.

Lemma crawl_dense (maxdist : Z) :
  dense (stackedOutput (crawl get load mainUrl maxdist))
        (autoincrmentId (crawl get load mainUrl maxdist)).
Proof.
  apply (crawl_invariant get load mainUrl
           (fun _ st => dense (stackedOutput st) (autoincrmentId st))).
  - split; [done|]. intros id. simpl. rewrite lookup_empty. split; [by intros [? ?] | lia].
  - intros _ st H. by apply crawlLevel_dense.
Qed.

Lemma crawl_extends (n k : nat) :
  stackedOutput (crawl get load mainUrl (Z.of_nat n))
  ⊆ stackedOutput (crawl get load mainUrl (Z.of_nat (n + k))).
Proof.
  induction k as [|k IH].
  - by rewrite Nat.add_0_r.
  - rewrite Nat.add_succ_r, crawl_succ. etrans; [exact IH|].
    apply crawlLevel_dense, crawl_dense.
Qed.

End Identifiers.

(** C2.  The ids of the output store are exactly 1 .. count, where count is
    the number of records: the counter starts at 1, stands one above the
    count when the crawl ends, and a deeper crawl of the same web keeps every
    record of a shallower one under its id (no id is used twice). *)
Theorem C2_ids_dense (get : jsstring -> axios_result) (load : jsstring -> list node)
    (mainUrl dbName : jsstring) (maxdist : Z) :
  let store := snd (runCrawler get load mainUrl maxdist dbName) in
  let count := Z.of_nat (size store) in
  (forall id, is_Some (store !! id) <-> 1 <= id <= count)
  /\ autoincrmentId (initialState mainUrl) = 1
  /\ autoincrmentId (crawl get load mainUrl maxdist) = count + 1
  /\ (forall deeper, maxdist <= deeper ->
        store ⊆ snd (runCrawler get load mainUrl deeper dbName)).
Proof.
  simpl. pose proof (crawl_dense get load mainUrl maxdist) as Hd.
  pose proof (dense_size _ _ Hd) as Hs. destruct Hd as [Hn Hd].
  split; [|split; [done|split; [lia|]]].
  - intros id. rewrite Hd. lia.
  - intros deeper Hle. destruct (Z.le_gt_cases 0 maxdist) as [H0|H0].
    + replace maxdist with (Z.of_nat (Z.to_nat maxdist)) by lia.
      replace deeper with (Z.of_nat (Z.to_nat maxdist + Z.to_nat (deeper - maxdist))) by lia.
      apply crawl_extends.
    + unfold crawl at 1. replace (Z.to_nat maxdist) with O by lia. simpl.
      apply map_empty_subseteq.
Qed.

Lemma C2_ids_dense_witness :
  1 <= 2 /\
  snd (runCrawler home_get home_load A 1 (js "db"))
  ⊆ snd (runCrawler home_get home_load A 2 (js "db")).
Proof.
  split; [lia|].
  pose proof (C2_ids_dense home_get home_load A (js "db") 1) as (_ & _ & _ & H).
  apply H. lia.
Defined.

(** ** Frontier, visited set and depth *)

Section Frontier.

Variable get : jsstring -> axios_result.
Variable load : jsstring -> list node.
Variable mainUrl : jsstring.

Local Abbreviation page := (processPage get load mainUrl).

Lemma arr_includes_false (arr : list jsstring) (x : jsstring) :
  arr_includes arr x = false <-> x ∉ arr.
Proof. unfold arr_includes. by rewrite bool_decide_eq_false. Qed.

Lemma stageLinks_spec (visited links nu : list jsstring) :
  (forall w, w ∈ stageLinks visited nu links -> w ∈ nu \/ (w ∈ links /\ w ∉ visited))
  /\ (NoDup nu -> NoDup (stageLinks visited nu links))
  /\ nu `prefix_of` stageLinks visited nu links.
Proof.
  unfold stageLinks. revert nu; induction links as [|l ls IH]; intros nu; simpl.
  - split; [by left | done].
  - destruct (arr_includes visited l) eqn:Ev; simpl.
    { destruct (IH nu) as (H1 & H2 & H3). split; [|done].
      intros w Hw. destruct (H1 w Hw) as [?|[? ?]]; [by left | right; split; [by right | done]]. }
    destruct (arr_includes nu l) eqn:En; simpl.
    { destruct (IH nu) as (H1 & H2 & H3). split; [|done].
      intros w Hw. destruct (H1 w Hw) as [?|[? ?]]; [by left | right; split; [by right | done]]. }
    apply arr_includes_false in Ev, En.
    destruct (IH (nu ++ [l])) as (H1 & H2 & H3). split; [|split].
    + intros w Hw. destruct (H1 w Hw) as [Hin|[? ?]].
      * apply elem_of_app in Hin as [?|Hin]; [by left|].
        apply list_elem_of_singleton in Hin as ->. right. split; [by left | done].
      * right. split; [by right | done].
    + intros Hnd. apply H2. apply NoDup_app. split; [done|]. split.
      * intros x Hx Hx'. apply list_elem_of_singleton in Hx' as ->. done.
      * apply NoDup_singleton.
    + etrans; [|exact H3]. by apply prefix_app_r.
Qed.

(** What holds of the frontier: the array a level leaves for the next one
    has no URL twice, and each URL is staged at a moment when it is not in
    the visited array. *)
Lemma frontier_NoDup (maxdist : Z) :
  NoDup (urlsToVisit (crawl get load mainUrl maxdist)).
Proof.
  apply (crawl_invariant get load mainUrl (fun _ st => NoDup (urlsToVisit st))).
  - apply NoDup_singleton.
  - intros _ st _. rewrite crawlLevel_flat. simpl. unfold mergeAll.
    apply (merge_invariant get load mainUrl (fun m => NoDup (m_newUrlsToVisit m))).
    + intros m u pr _ _ Hm. simpl. by apply stageLinks_spec.
    + apply NoDup_nil_2.
Qed.

Lemma recorded_insert (u : jsstring) (store : gmap Z Rec) (id : Z) (r : Rec) :
  recorded u (<[id := r]> store) -> r_url r = u \/ recorded u store.
Proof.
  intros (k & r' & Hl & Hu). apply lookup_insert_Some in Hl as [[-> ->]|[_ Hl]].
  - by left.
  - right. by exists k, r'.
Qed.

Lemma crawlLevel_reached (n : nat) (st : state) :
  reached get load mainUrl n st ->
  reached get load mainUrl (S n) (crawlLevel get load mainUrl st).
Proof.
  intros (Hf & Hr & Hv). rewrite crawlLevel_flat. simpl. unfold mergeAll.
  apply (merge_invariant get load mainUrl
    (fun m =>
       (forall u, u ∈ m_newUrlsToVisit m -> hops get load mainUrl (S n) mainUrl u)
       /\ (forall u, recorded u (m_output m) ->
             is_Some (page u) /\
             exists j, (j < S n)%nat /\ hops get load mainUrl j mainUrl u)
       /\ (forall u, u ∈ m_visited m -> is_Some (page u)))).
  - intros m u pr Hin Hp (H1 & H2 & H3). simpl.
    pose proof (processPage_url get load mainUrl u pr Hp) as Hu.
    split; [|split].
    + intros w Hw. apply stageLinks_spec in Hw as [Hw|[Hw _]]; [by apply H1|].
      eapply hops_S; [by apply Hf | exact Hp | done].
    + intros w Hw. apply recorded_insert in Hw as [Hw|Hw]; [|by apply H2].
      simpl in Hw. rewrite Hu in Hw. subst w. split; [by eexists|].
      exists n. split; [lia | by apply Hf].
    + intros w Hw. apply elem_of_app in Hw as [Hw|Hw]; [by apply H3|].
      apply list_elem_of_singleton in Hw as ->. rewrite Hu. by eexists.
  - simpl. split; [|split].
    + by intros u ?%elem_of_nil.
    + intros u Hu. destruct (Hr u Hu) as [Hs (j & Hj & Hh)].
      split; [done|]. exists j. split; [lia | done].
    + done.
Qed.

Lemma crawl_reached (maxdist : Z) :
  reached get load mainUrl (Z.to_nat maxdist) (crawl get load mainUrl maxdist).
Proof.
  apply (crawl_invariant get load mainUrl (reached get load mainUrl)).
  - split; [|split].
    + intros u Hu. apply list_elem_of_singleton in Hu as ->. constructor.
    + intros u (k & r & Hl & _). simpl in Hl. by rewrite lookup_empty in Hl.
    + by intros u ?%elem_of_nil.
  - apply crawlLevel_reached.
Qed.

End Frontier.

(** C1.  The code does not keep a URL out of the store once it is there: a
    link to a page that waits further on in the frontier of the same level is
    staged again, because that page is not in the visited array yet.  On the
    web where A links to B and C and B links to C, the crawl of depth 3
    records C under the ids 3 and 4, and the frontier of level 3 is [C] while
    C is in the visited array. *)
Theorem C1_url_recorded_twice :
  let st := crawl diamond_get diamond_load A 3 in
  r_url <$> stackedOutput st !! 3 = Some C
  /\ r_url <$> stackedOutput st !! 4 = Some C
  /\ urlsToVisit (crawl diamond_get diamond_load A 2) = [C]
  /\ C ∈ visitedUrls (crawl diamond_get diamond_load A 2).
Proof.
  cbv zeta. repeat split; try (vm_compute; reflexivity).
  apply (bool_decide_unpack _). vm_compute. exact I.
Qed.

(** C3.  A recorded URL is fewer than maxDepth links away from the seed, so
    a page that only paths of more than maxDepth links reach is not in the
    store; on the chain A -> B -> C -> D2 with maxDepth 2 the store holds the
    records of A and B, and neither C nor D2. *)
Theorem C3_depth_bound :
  (forall get load mainUrl maxdist dbName u,
      recorded u (snd (runCrawler get load mainUrl maxdist dbName)) ->
      exists n, Z.of_nat n < maxdist /\ hops get load mainUrl n mainUrl u)
  /\ (forall get load mainUrl maxdist dbName u,
      (forall n, hops get load mainUrl n mainUrl u -> maxdist < Z.of_nat n) ->
      ~ recorded u (snd (runCrawler get load mainUrl maxdist dbName)))
  /\ snd (runCrawler chain_get chain_load A 2 (js "db"))
     = {[ 1 := {| r_url := A; r_title := js "A"; r_texts := [] |};
          2 := {| r_url := B; r_title := js "B"; r_texts := [] |} ]}
  /\ ~ recorded C (snd (runCrawler chain_get chain_load A 2 (js "db")))
  /\ ~ recorded D2 (snd (runCrawler chain_get chain_load A 2 (js "db"))).
Proof.
  assert (Hgen : forall get load mainUrl maxdist dbName u,
      recorded u (snd (runCrawler get load mainUrl maxdist dbName)) ->
      exists n, Z.of_nat n < maxdist /\ hops get load mainUrl n mainUrl u).
  { intros get load mainUrl maxdist dbName u Hu. simpl in Hu.
    destruct (crawl_reached get load mainUrl maxdist) as (_ & Hr & _).
    destruct (Hr u Hu) as (_ & j & Hj & Hh). exists j. split; [lia | done]. }
  assert (Hstore : snd (runCrawler chain_get chain_load A 2 (js "db"))
     = {[ 1 := {| r_url := A; r_title := js "A"; r_texts := [] |};
          2 := {| r_url := B; r_title := js "B"; r_texts := [] |} ]}).
  { vm_compute. reflexivity. }
  split; [exact Hgen|]. split; [|split; [exact Hstore|]].
  - intros get load mainUrl maxdist dbName u Hfar Hu.
    destruct (Hgen _ _ _ _ _ _ Hu) as (n & Hn & Hh).
    specialize (Hfar n Hh). lia.
  - rewrite Hstore. split.
    + intros (k & r & Hl & Hu).
      apply lookup_insert_Some in Hl as [[_ <-]|[_ Hl]]; [by vm_compute in Hu|].
      apply lookup_singleton_Some in Hl as [_ <-]. by vm_compute in Hu.
    + intros (k & r & Hl & Hu).
      apply lookup_insert_Some in Hl as [[_ <-]|[_ Hl]]; [by vm_compute in Hu|].
      apply lookup_singleton_Some in Hl as [_ <-]. by vm_compute in Hu.
Qed.

Lemma C3_depth_bound_witness :
  recorded B (snd (runCrawler chain_get chain_load A 2 (js "db")))
  /\ exists n, Z.of_nat n < 2 /\ hops chain_get chain_load A n A B.
Proof.
  assert (H : recorded B (snd (runCrawler chain_get chain_load A 2 (js "db")))).
  { exists 2, {| r_url := B; r_title := js "B"; r_texts := [] |}.
    split; vm_compute; reflexivity. }
  split; [exact H|].
  exact (proj1 C3_depth_bound chain_get chain_load A 2 (js "db") B H).
Defined.

(** C8.  A URL whose fetch fails (network error, status other than 200, or
    empty body) gives no page; it has no record in the store and is not in
    the visited array, whatever the depth, and a level whose frontier holds
    it ends in the state it would end in without it: nothing is staged for
    it and the pages after it are merged all the same. *)
Theorem C8_failed_fetch_skipped (get : jsstring -> axios_result)
    (load : jsstring -> list node) (mainUrl u : jsstring) :
  fetchFails get u ->
  processPage get load mainUrl u = None
  /\ (forall maxdist dbName,
        ~ recorded u (snd (runCrawler get load mainUrl maxdist dbName)))
  /\ (forall maxdist, u ∉ visitedUrls (crawl get load mainUrl maxdist))
  /\ (forall level visited output id l1 l2,
        crawlLevel get load mainUrl
          {| currentLevel := level; visitedUrls := visited;
             urlsToVisit := l1 ++ u :: l2;
             stackedOutput := output; autoincrmentId := id |}
        = crawlLevel get load mainUrl
          {| currentLevel := level; visitedUrls := visited;
             urlsToVisit := l1 ++ l2;
             stackedOutput := output; autoincrmentId := id |}).
Proof.
  intros Hfail.
  assert (Hnone : processPage get load mainUrl u = None).
  { unfold processPage, extractUrl. unfold fetchFails in Hfail.
    destruct (get u) as [|status data]; [done|].
    destruct Hfail as [Hs | ->].
    - destruct (Z.eqb_spec status 200); [done | done].
    - by rewrite andb_false_r. }
  split; [done|]. split; [|split].
  - intros maxdist dbName Hu. simpl in Hu.
    destruct (crawl_reached get load mainUrl maxdist) as (_ & Hr & _).
    destruct (Hr u Hu) as [[pr Hp] _]. congruence.
  - intros maxdist Hu.
    destruct (crawl_reached get load mainUrl maxdist) as (_ & _ & Hv).
    destruct (Hv u Hu) as [pr Hp]. congruence.
  - intros level visited output id l1 l2. rewrite !crawlLevel_flat.
    unfold mergeAll. simpl.
    rewrite !List.map_app, !foldl_app. simpl. by rewrite Hnone.
Qed.

Lemma C8_failed_fetch_skipped_witness :
  fetchFails home_get (js "http://www.x.com/about")
  /\ processPage home_get home_load A (js "http://www.x.com/about") = None.
Proof.
  assert (H : fetchFails home_get (js "http://www.x.com/about")) by exact I.
  split; [exact H|].
  exact (proj1 (C8_failed_fetch_skipped home_get home_load A _ H)).
Defined.

(** ** The command line *)

(** What [run] does reject: no URL, an empty or malformed URL, a negative
    depth.  Nothing is crawled then. *)
Lemma run_rejects (get : jsstring -> axios_result) (load : jsstring -> list node)
    (options : IOptions) :
  (o_url options = None \/ o_url options = Some []
   \/ (exists u, o_url options = Some u /\ validateUrl u = false)
   \/ (exists d, o_maxdist options = Some d /\ d < 0)) ->
  exists msg, run get load options = inl msg.
Proof.
  unfold run. intros [H|[H|[(u & H & Hv)|(d & H & Hd)]]].
  - rewrite H. by eexists.
  - rewrite H. by eexists.
  - rewrite H. destruct (negb (truthy u)); [by eexists|]. rewrite Hv. by eexists.
  - destruct (o_url options) as [u|]; [|by eexists].
    destruct (negb (truthy u)); [by eexists|].
    destruct (negb (validateUrl u)); [by eexists|].
    rewrite H. destruct (Z.eqb_spec d 0); [lia|]. destruct (Z.ltb_spec d 1); [|lia].
    by eexists.
Qed.

(** Without [--maxdist] the depth is 1. *)
Lemma run_default_maxdist (get : jsstring -> axios_result)
    (load : jsstring -> list node) (u : jsstring) (db : option jsstring) :
  validateUrl u = true ->
  exists dbName,
    run get load {| o_url := Some u; o_maxdist := None; o_db := db |}
    = inr (runCrawler get load u 1 dbName).
Proof.
  intros Hv. unfold run. simpl. rewrite Hv.
  destruct u; [done|]. simpl. by eexists.
Qed.

(** C4.  The depth 0 is not rejected: [0] is falsy, so the test
    [maxdist && maxdist < 1] lets it through and [maxdist || DEFAULT_MAXDIST]
    turns it into 1; the seed is fetched and recorded. *)
Theorem C4_zero_maxdist_crawls :
  (forall get load,
      run get load {| o_url := Some A; o_maxdist := Some 0; o_db := None |}
      = inr (runCrawler get load A 1 DEFAULT_DB_NAME))
  /\ run home_get home_load {| o_url := Some A; o_maxdist := Some 0; o_db := None |}
     = inr (DEFAULT_DB_NAME,
            {[ 1 := {| r_url := A; r_title := js "Home"; r_texts := js "Welcome" |} ]}).
Proof.
  split; [intros get load; reflexivity | vm_compute; reflexivity].
Qed.

(** ** The page extractor *)

Section Extractor.

Variable get : jsstring -> axios_result.
Variable load : jsstring -> list node.

Lemma extractUrl_truthy (u html : jsstring) :
  extractUrl get u = Some html -> truthy html = true.
Proof.
  unfold extractUrl. destruct (get u) as [|status data]; [done|].
  destruct (status =? 200); [|done]. destruct (truthy data) eqn:E; [|done].
  simpl. by intros [= <-].
Qed.

Lemma eachElement_title (mainUrl : jsstring) (st : extraction) (e : node) :
  is_ e (js "title") = false ->
  pageTitle (eachElement mainUrl st e) = pageTitle st.
Proof.
  intros H. unfold eachElement. rewrite H.
  by destruct (EXCLUDE_SCRIPTS && (is_ e (js "script") || is_ e (js "noscript"))).
Qed.

Lemma each_title (mainUrl : jsstring) (els : list node) (st : extraction) :
  forallb (fun e => negb (is_ e (js "title"))) els = true ->
  pageTitle (foldl (eachElement mainUrl) st els) = pageTitle st.
Proof.
  revert st; induction els as [|e els IH]; intros st H; [done|].
  simpl in H. apply andb_true_iff in H as [He Hels]. apply negb_true_iff in He.
  simpl. rewrite IH by done. by apply eachElement_title.
Qed.

End Extractor.

(** C10.  A page that was fetched and whose document has no title element is
    extracted with the empty string as its title. *)
Theorem C10_no_title_element (get : jsstring -> axios_result)
    (load : jsstring -> list node) (mainUrl u html : jsstring) :
  extractUrl get u = Some html ->
  forallb (fun e => negb (is_ e (js "title"))) (allElements (load html)) = true ->
  exists pr, processPage get load mainUrl u = Some pr /\ title pr = [].
Proof.
  intros Hx Hno. unfold processPage. rewrite Hx.
  rewrite (extractUrl_truthy get u html Hx). simpl.
  eexists. split; [reflexivity|]. simpl. by rewrite each_title.
Qed.

Lemma C10_no_title_element_witness :
  exists pr, processPage untitled_get untitled_load A A = Some pr /\ title pr = [].
Proof.
  apply (C10_no_title_element untitled_get untitled_load A A (js "a"));
    vm_compute; reflexivity.
Defined.

(** C6 does not hold as stated: the scenario says nothing of the text of
    the link, and the text of an anchor is collected like any other.  With
    the link text About the texts of the record are Welcome, About. *)
Lemma C6_counterexample :
  runCrawler about_get about_load A 1 (js "crawler.JSON")
  = (js "crawler.JSON",
     {[ 1 := {| r_url := js "http://www.x.com/"; r_title := js "Home";
                r_texts := js "Welcome, About" |} ]})
  /\ runCrawler about_get about_load A 1 (js "crawler.JSON")
     <> (js "crawler.JSON",
         {[ 1 := {| r_url := js "http://www.x.com/"; r_title := js "Home";
                    r_texts := js "Welcome" |} ]}).
Proof.
  assert (H : runCrawler about_get about_load A 1 (js "crawler.JSON")
              = (js "crawler.JSON",
                 {[ 1 := {| r_url := js "http://www.x.com/"; r_title := js "Home";
                            r_texts := js "Welcome, About" |} ]}))
    by (vm_compute; reflexivity).
  split; [exact H|]. rewrite H. intros E.
  apply (f_equal (fun x => r_texts <$> snd x !! 1)) in E.
  vm_compute in E. discriminate.
Qed.

(** C6, amended.  The end-to-end scenario: the seed page has the title
    Home, the paragraph Welcome (42) and a link to /about.  The expression
    for parenthesised numbers turns the text of the paragraph into Welcome
    followed by a space before the words are taken.  With maxDepth 1 the
    store is the one record of the seed, whatever the rest of the web is; its
    texts are Welcome followed by the words of the text of the link, and so
    just Welcome when the link has no text.  The loop is left at level 2 with
    /about staged and never fetched. *)
Theorem C6_end_to_end (get : jsstring -> axios_result)
    (load : jsstring -> list node) (html dbName : jsstring)
    (linkText : option jsstring) :
  get A = Resolved 200 html -> html <> [] -> load html = linked_doc linkText ->
  let strip := fun t => foldl replaceAll (trim t) EXCLUDE_REGEXS_FROM_TEXT in
  strip (ownText (Element (js "p") [] [TextNode (js "Welcome (42)")]))
  = js "Welcome "
  /\ runCrawler get load A 1 dbName
     = (dbName,
        {[ 1 := {| r_url := js "http://www.x.com/"; r_title := js "Home";
                   r_texts := join (pushWords [js "Welcome"]
                                      (strip (default [] linkText)))
                                   TEXT_SEPARATOR |} ]})
  /\ (linkText = None ->
      runCrawler get load A 1 dbName
      = (dbName,
         {[ 1 := {| r_url := js "http://www.x.com/"; r_title := js "Home";
                    r_texts := js "Welcome" |} ]}))
  /\ currentLevel (crawl get load A 1) = 2
  /\ visitedUrls (crawl get load A 1) = [A]
  /\ urlsToVisit (crawl get load A 1) = [js "http://www.x.com/about"].
Proof.
  intros Hget Hne Hload strip.
  assert (Hp : processPage get load A A
               = Some {| url := A; title := js "Home";
                         texts := join (pushWords [js "Welcome"]
                                          (strip (default [] linkText)))
                                       TEXT_SEPARATOR;
                         links := [js "http://www.x.com/about"] |}).
  { unfold processPage, extractUrl. rewrite Hget.
    destruct html as [|c html]; [done|].
    change ((200 =? 200) && truthy (c :: html)) with true. cbv iota.
    change (negb (truthy (c :: html))) with false. cbv iota.
    rewrite Hload. destruct linkText as [t|]; [|vm_compute; reflexivity].
    assert (Hwalk : foldl (eachElement A)
                      {| pageTitle := []; findedUrls := []; findedText := [] |}
                      (allElements (linked_doc (Some t)))
                    = {| pageTitle := js "Home";
                         findedUrls := [js "http://www.x.com/about"];
                         findedText :=
                           collectText words [js "Welcome"]
                             (Element (js "a") [(js "href", js "/about")]
                                      [TextNode t]) |})
      by (vm_compute; reflexivity).
    rewrite Hwalk. cbv beta iota zeta delta [pageTitle findedUrls findedText].
    change (default [] (Some t)) with t.
    do 2 f_equal. unfold collectText. cbn [ownText List.map concat].
    rewrite app_nil_r.
    change (foldl replaceAll (trim t) EXCLUDE_REGEXS_FROM_TEXT) with (strip t).
    generalize (strip t). intros [|x r]; reflexivity. }
  assert (Hc : crawl get load A 1
               = crawlLevel get load A (initialState A)) by reflexivity.
  split; [vm_compute; reflexivity|].
  unfold runCrawler. rewrite Hc, crawlLevel_flat. unfold mergeAll.
  simpl urlsToVisit. simpl List.map. rewrite Hp.
  split; [reflexivity|]. split; [|repeat split; reflexivity].
  intros ->. vm_compute. reflexivity.
Qed.

Lemma C6_end_to_end_witness :
  runCrawler home_get home_load A 1 (js "crawler.JSON")
  = (js "crawler.JSON",
     {[ 1 := {| r_url := js "http://www.x.com/"; r_title := js "Home";
                r_texts := js "Welcome" |} ]}).
Proof.
  refine (proj1 (proj2 (proj2
            (C6_end_to_end home_get home_load home_html (js "crawler.JSON") None
               _ _ _))) eq_refl);
    [reflexivity | discriminate | reflexivity].
Defined.

(** ** Words *)

Section Words.








End Words.




(** ** The URL normaliser *)

Section Normaliser.

Lemma replace_absent (s pat rep : jsstring) :
  ~ occurs pat s -> replace s pat rep = s.
Proof.
  induction s as [|c s IH]; intros Hno; simpl.
  - destruct (startsWith [] pat) eqn:E; [|done].
    exfalso. apply Hno, includes_occurs. simpl. by rewrite E.
  - destruct (startsWith (c :: s) pat) eqn:E.
    + exfalso. apply Hno, includes_occurs. simpl. by rewrite E.
    + rewrite IH; [done|]. intros (l & r & ->). apply Hno. by exists (c :: l), r.
Qed.

Lemma replace_leftmost (pat rep l r s : jsstring) :
  leftmost pat l r s -> replace s pat rep = l ++ rep ++ r.
Proof.
  revert s; induction l as [|c l IH]; intros s [-> Hmin].
  - simpl. destruct (pat ++ r) as [|x t] eqn:E.
    + destruct pat; [|done]. simpl in E. subst r. simpl. by rewrite app_nil_r.
    + rewrite <- E.
      assert (Hs : startsWith (pat ++ r) pat = true)
        by (apply startsWith_prefix; by exists r).
      assert (Hr : replace (pat ++ r) pat rep = rep ++ drop (length pat) (pat ++ r)).
      { rewrite E in *. simpl. by rewrite Hs. }
      by rewrite Hr, drop_app_length.
  - simpl. destruct (startsWith (c :: l ++ pat ++ r) pat) eqn:E.
    + apply startsWith_prefix in E as [r' E].
      specialize (Hmin [] r' E). simpl in Hmin. lia.
    + f_equal. apply IH. split; [done|]. intros l' r' E'.
      specialize (Hmin (c :: l') r'). simpl in Hmin.
      rewrite E' in Hmin. specialize (Hmin eq_refl). lia.
Qed.

Lemma addHttpIfMissing_absolutized (siteRoot href : jsstring) :
  absolutized siteRoot href (addHttpIfMissing siteRoot href).
Proof.
  unfold absolutized, addHttpIfMissing.
  destruct (startsWith href (js "http")) eqn:Eh.
  { apply startsWith_prefix in Eh. repeat split; intros; done. }
  apply startsWith_false in Eh.
  destruct (startsWith href (js "/")) eqn:Es;
    destruct (endsWith siteRoot (js "/")) eqn:Ee; simpl;
    rewrite ?startsWith_prefix, ?startsWith_false in Es;
    rewrite ?endsWith_suffix, ?endsWith_false in Ee;
    rewrite ?substring_from_1;
    (split; [done|]); (split; [try done; tauto|]);
    (split; [try done; tauto|]); try done; tauto.
Qed.

Lemma addWWWIfMissing_canonicalized (a : jsstring) :
  canonicalized a (addWWWIfMissing a).
Proof.
  unfold canonicalized, addWWWIfMissing.
  destruct (includes a (js "www.")) eqn:Ew.
  - apply includes_occurs in Ew. repeat split; intros; done.
  - apply includes_false in Ew. split; [done|]. split.
    + intros _ Hno. by apply replace_absent.
    + intros _ l r Hl. by apply replace_leftmost.
Qed.

Lemma deleteParamsFromUrl_stripped (b : jsstring) :
  stripped b (deleteParamsFromUrl b).
Proof.
  unfold stripped. rewrite deleteParamsFromUrl_before. split.
  - apply before_notin.
  - intros l r -> Hl. by apply before_app.
Qed.

End Normaliser.

(** C7 does not hold as stated: the absolutising step leaves an href as it
    is when it begins with the four letters http, not when it begins with a
    scheme.  An ftp URL is appended to the site root. *)
Lemma C7_counterexample :
  beginsWithScheme (js "ftp://www.x.com/f") = true
  /\ spec_normalize (js "http://www.x.com/") (js "ftp://www.x.com/f")
     = js "ftp://www.x.com/f"
  /\ processHrefValue (js "http://www.x.com/") (js "ftp://www.x.com/f")
     = js "http://www.x.com/ftp://www.x.com/f"
  /\ processHrefValue (js "http://www.x.com/") (js "ftp://www.x.com/f")
     <> spec_normalize (js "http://www.x.com/") (js "ftp://www.x.com/f").
Proof. repeat split; try (vm_compute; reflexivity). vm_compute. discriminate. Qed.

(** C7, amended.  [processHrefValue] is three steps in order.  (1) An href
    that begins with http is left as it is; otherwise, when the href begins
    with a slash and the site root ends with one, the result is the site root
    followed by the href without its first code unit; when neither is so, the
    site root, a slash and the href; in the two remaining cases the site root
    followed by the href.  (2) When the result holds no www. the leftmost ://
    in it, if there is one, becomes ://www.  (3) The result is cut before its
    first question mark, if there is one. *)
Theorem C7_normalize (siteRoot href : jsstring) :
  let a := addHttpIfMissing siteRoot href in
  let b := addWWWIfMissing a in
  let c := deleteParamsFromUrl b in
  processHrefValue siteRoot href = c
  /\ absolutized siteRoot href a
  /\ canonicalized a b
  /\ stripped b c.
Proof.
  intros a b c. split; [done|]. split; [|split].
  - apply addHttpIfMissing_absolutized.
  - apply addWWWIfMissing_canonicalized.
  - apply deleteParamsFromUrl_stripped.
Qed.

(** ** www. in the frontier *)

Section WWW.

Local Abbreviation sep := [58; 47; 47]%N.
Local Abbreviation sepwww := [58; 47; 47; 119; 119; 119; 46]%N.
Local Abbreviation www := [119; 119; 119; 46]%N.

Lemma startsWith_cons (d c : jschar) (s p : jsstring) :
  startsWith (d :: s) (c :: p) = (d =? c)%N && startsWith s p.
Proof. reflexivity. Qed.




Lemma includes_cons (c : jschar) (s p : jsstring) :
  includes s p = true -> includes (c :: s) p = true.
Proof. intros H. simpl. rewrite H. apply orb_true_r. Qed.




End WWW.

Section Links.

Variable get : jsstring -> axios_result.
Variable load : jsstring -> list node.
Variable mainUrl : jsstring.

Local Abbreviation sameSite := (sameSiteLink mainUrl).

Lemma pushUnique_elem (arr : list jsstring) (x w : jsstring) :
  w ∈ pushUnique arr x -> w ∈ arr \/ w = x.
Proof.
  unfold pushUnique. destruct (negb (arr_includes arr x)); [|by left].
  intros [?|?%list_elem_of_singleton]%elem_of_app; [by left | by right].
Qed.

Lemma collectLink_sameSite (fu : list jsstring) (e : node) :
  Forall sameSite fu -> Forall sameSite (collectLink mainUrl fu e).
Proof.
  intros H. unfold collectLink. destruct (is_ e (js "a")); [|done].
  destruct (attr e (js "href")) as [href|]; [|done].
  destruct (truthy href && negb (arr_includes EXCLUDED_HREFS href)
            && negb (startsWith href (js "mailto"))); [|done].
  cbv zeta. destruct (startsWith (processHrefValue mainUrl href) mainUrl) eqn:E; [|done].
  apply Forall_forall. intros w Hw. apply pushUnique_elem in Hw as [Hw| ->].
  - by eapply Forall_forall in H.
  - by exists href.
Qed.

Lemma each_sameSite (els : list node) (st : extraction) :
  Forall sameSite (findedUrls st) ->
  Forall sameSite (findedUrls (foldl (eachElement mainUrl) st els)).
Proof.
  revert st; induction els as [|e els IH]; intros st H; [done|].
  simpl. apply IH. unfold eachElement.
  destruct (EXCLUDE_SCRIPTS && (is_ e (js "script") || is_ e (js "noscript"))); [done|].
  destruct (is_ e (js "title")); simpl; by apply collectLink_sameSite.
Qed.

Lemma processPage_sameSite (u : jsstring) (pr : IprocessedPage) :
  processPage get load mainUrl u = Some pr -> Forall sameSite (links pr).
Proof.
  unfold processPage. destruct (extractUrl get u) as [h|]; [|done].
  destruct (negb (truthy h)); [done|]. intros [= <-]. simpl.
  apply each_sameSite. constructor.
Qed.


End Links.




(** * Further properties of the command *)

(** ** Options *)

Section Options.

Variable get : jsstring -> axios_result.
Variable load : jsstring -> list node.

Lemma endsWith_app (v p : jsstring) : endsWith (v ++ p) p = true.
Proof. apply endsWith_suffix. by exists v. Qed.

Lemma parseDb_endsWith (val : jsstring) :
  endsWith (parseDb val) (js ".JSON") = true.
Proof.
  unfold parseDb. destruct (endsWith val (js ".JSON")) eqn:E; simpl;
    [done | apply endsWith_app].
Qed.

(** X1.  [parseDb] gives a name that ends with .JSON, keeps the given name
    as its beginning, changes nothing in a name that ends with .JSON
    already, and so does nothing when applied twice. *)
Theorem X1_parseDb_suffix (val : jsstring) :
  endsWith (parseDb val) (js ".JSON") = true
  /\ val `prefix_of` parseDb val
  /\ (endsWith val (js ".JSON") = true <-> parseDb val = val)
  /\ parseDb (parseDb val) = parseDb val.
Proof.
  pose proof (parseDb_endsWith val) as H1.
  split; [done|]. split; [|split].
  - unfold parseDb. destruct (negb (endsWith val (js ".JSON")));
      [by apply prefix_app_r | done].
  - split.
    + intros E. unfold parseDb. by rewrite E.
    + intros E. by rewrite <- E.
  - unfold parseDb at 1. by rewrite H1.
Qed.

(** X2.  Without a URL, or with the empty string as URL, [run] prints the
    message of the missing URL and crawls nothing, whatever the other
    options are; with a URL that [validateUrl] refuses it prints the message
    of the invalid URL, also when the depth is invalid too. *)
Theorem X2_run_url_checked_first (url : option jsstring) (maxdist : option Z)
    (db : option jsstring) :
  let options := {| o_url := url; o_maxdist := maxdist; o_db := db |} in
  ((url = None \/ url = Some []) -> run get load options = inl NO_URL_MSG)
  /\ (forall u, url = Some u -> u <> [] -> validateUrl u = false ->
        run get load options = inl INVALID_URL_MSG).
Proof.
  simpl. split.
  - intros [-> | ->]; reflexivity.
  - intros u -> Hu Hv. unfold run. simpl. destruct u; [done|]. simpl.
    by rewrite Hv.
Qed.

(** X3.  With a valid URL a negative depth is refused with the message of
    the depth, and nothing is crawled. *)
Theorem X3_run_negative_maxdist (u : jsstring) (d : Z) (db : option jsstring) :
  validateUrl u = true -> d < 0 ->
  run get load {| o_url := Some u; o_maxdist := Some d; o_db := db |}
  = inl INVALID_MAXDIST_MSG.
Proof.
  intros Hv Hd. unfold run. simpl. rewrite Hv.
  destruct u; [done|]. simpl.
  destruct (Z.eqb_spec d 0); [lia|]. destruct (Z.ltb_spec d 1); [done | lia].
Qed.

(** X4.  With a valid URL and a depth of 1 or more, [run] crawls from that
    URL to that depth and writes to the given file name; without a file
    name, or with the empty one, it writes to crawler.JSON. *)
Theorem X4_run_crawls (u : jsstring) (d : Z) (db : option jsstring) :
  validateUrl u = true -> 1 <= d ->
  run get load {| o_url := Some u; o_maxdist := Some d; o_db := db |}
  = inr (runCrawler get load u d
           (match db with
            | Some (c :: n) => c :: n
            | _ => js "crawler.JSON"
            end)).
Proof.
  intros Hv Hd. unfold run. simpl. rewrite Hv.
  destruct u; [done|]. simpl.
  destruct (Z.eqb_spec d 0); [lia|]. destruct (Z.ltb_spec d 1); [lia|]. simpl.
  by destruct db as [[|c0 name]|].
Qed.

(** X5.  Whatever [run] writes, it writes to a file whose name ends with
    .JSON, when the [--db] option went through [parseDb]. *)
Theorem X5_run_file_name (options : IOptions) (raw : option jsstring)
    (name : jsstring) (store : gmap Z Rec) :
  o_db options = parseDb <$> raw ->
  run get load options = inr (name, store) ->
  endsWith name (js ".JSON") = true.
Proof.
  intros Hdb. unfold run.
  destruct (o_url options) as [u|]; [|done].
  destruct (negb (truthy u)); [done|].
  destruct (negb (validateUrl u)); [done|].
  destruct (match o_maxdist options with
            | Some d => negb (d =? 0) && (d <? 1) | None => false end); [done|].
  unfold runCrawler. intros [= <- _]. rewrite Hdb.
  destruct raw as [v|]; simpl; [|reflexivity].
  destruct (truthy (parseDb v)); [|reflexivity].
  apply parseDb_endsWith.
Qed.

End Options.

(** ** Validation of the seed *)

Section Validation.

Lemma toUpper_inv (c k : jschar) :
  (k < 65 \/ 90 < k)%N -> toUpper c = k -> c = k.
Proof.
  unfold toUpper. intros Hk.
  destruct (N.leb_spec 97 c); destruct (N.leb_spec c 122); simpl; lia.
Qed.

Lemma startsWith_app_inv (s p q : jsstring) :
  startsWith s (p ++ q) = true ->
  (length p <= length s)%nat /\ startsWith (drop (length p) s) q = true.
Proof.
  intros H. apply startsWith_prefix in H as [r ->]. rewrite <- app_assoc. split.
  - rewrite length_app. lia.
  - rewrite drop_app_length. apply startsWith_prefix. by exists r.
Qed.

Lemma startsWith_app_l (s t p : jsstring) :
  startsWith s p = true -> startsWith (s ++ t) p = true.
Proof. rewrite !startsWith_prefix. by apply prefix_app_r. Qed.

Lemma startsWithI_sep (s : jsstring) :
  startsWithI s (js "://") = true -> startsWith s (js "://") = true.
Proof.
  unfold startsWithI. change (List.map toUpper (js "://")) with [58; 47; 47]%N.
  destruct s as [|c1 [|c2 [|c3 s]]]; cbn [List.map]; intros H.
  - done.
  - rewrite startsWith_cons in H. apply andb_true_iff in H as [_ H]. done.
  - rewrite !startsWith_cons in H.
    apply andb_true_iff in H as [_ H]. apply andb_true_iff in H as [_ H]. done.
  - rewrite !startsWith_cons in H.
    rewrite !andb_true_iff, !N.eqb_eq in H. destruct H as (H1 & H2 & H3 & _).
    apply toUpper_inv in H1, H2, H3; try lia. subst.
    apply startsWith_prefix. by exists s.
Qed.

Lemma urlTail_app (s t : jsstring) :
  urlTail s = true -> urlTail (s ++ t) = true.
Proof.
  induction s as [|c s IH]; [done|]. simpl.
  destruct (urlLastChar c); [done|]. simpl.
  destruct (urlChar c); [exact IH | done].
Qed.

(** The scheme test of [validateUrl], for one scheme. *)
Lemma scheme_accepts (scheme url : jsstring) :
  startsWithI url (scheme ++ js "://") = true ->
  (length scheme + 3 <= length url)%nat
  /\ startsWith (drop (length scheme) url) (js "://") = true.
Proof.
  unfold startsWithI. rewrite List.map_app. intros H.
  apply startsWith_app_inv in H as [Hl H].
  rewrite List.length_map in *. rewrite List.skipn_map in H.
  pose proof (startsWithI_sep _ H) as Hs. split; [|done].
  apply startsWith_prefix, prefix_length in Hs.
  rewrite length_drop in Hs. simpl in Hs. lia.
Qed.

End Validation.

(** X6.  A URL that [validateUrl] accepts is not empty and holds [://]; and
    the expression is not anchored at its end: whatever is appended to an
    accepted URL, the result is accepted too. *)
Theorem X6_validateUrl_accepts (url : jsstring) :
  validateUrl url = true ->
  url <> []
  /\ includes url (js "://") = true
  /\ forall rest, validateUrl (url ++ rest) = true.
Proof.
  unfold validateUrl. intros H. apply existsb_exists in H as (scheme & Hin & H).
  apply andb_true_iff in H as [Hs Ht].
  destruct (scheme_accepts scheme url Hs) as [Hl Hsep]. split; [|split].
  - intros ->. simpl in Hl. lia.
  - apply includes_occurs. apply startsWith_prefix in Hsep as [r Hr].
    exists (take (length scheme) url), r.
    by rewrite <- Hr, take_drop.
  - intros rest. apply existsb_exists. exists scheme. split; [done|].
    apply andb_true_iff. split.
    + unfold startsWithI in *. rewrite List.map_app. by apply startsWith_app_l.
    + rewrite drop_app_le by lia. by apply urlTail_app.
Qed.

Lemma X6_validateUrl_accepts_witness :
  validateUrl (js "http://www.x.com/") = true
  /\ validateUrl (js "http://www.x.com/" ++ js " not a url") = true.
Proof.
  assert (H : validateUrl (js "http://www.x.com/") = true) by reflexivity.
  split; [exact H|].
  exact (proj2 (proj2 (X6_validateUrl_accepts _ H)) (js " not a url")).
Defined.

(** ** Chunks of the frontier *)

Section ChunkFacts.
Context {A : Type}.

Lemma chunk_loop_nonempty (arr : list A) (n : nat) fuel i :
  (1 <= n)%nat -> Forall (fun c => c <> []) (chunk_loop fuel arr n i).
Proof.
  intros Hn. revert i; induction fuel as [|f IH]; intros i; simpl; [constructor|].
  destruct (Nat.ltb_spec i (length arr)); constructor; [|apply IH].
  intros E. apply (f_equal length) in E. rewrite length_take, length_drop in E.
  simpl in E. lia.
Qed.

Lemma chunk_loop_count (arr : list A) (n : nat) :
  (1 <= n)%nat ->
  forall fuel i, (length arr - i <= fuel)%nat ->
    (length (chunk_loop fuel arr n i) = (length arr - i + (n - 1)) / n)%nat.
Proof.
  intros Hn fuel; induction fuel as [|f IH]; intros i Hf; simpl.
  - replace (length arr - i)%nat with O by lia. simpl.
    symmetry. apply Nat.div_small. lia.
  - destruct (Nat.ltb_spec i (length arr)) as [Hlt|Hge].
    + simpl. rewrite IH by lia.
      destruct (Nat.le_gt_cases (length arr) (i + n)) as [Hle|Hgt].
      * replace (length arr - (i + n))%nat with O by lia. simpl.
        rewrite (Nat.div_small (n - 1) n) by lia.
        apply (Nat.div_unique _ _ _ (length arr - i - 1)); lia.
      * replace (length arr - i + (n - 1))%nat
          with ((length arr - (i + n) + (n - 1)) + 1 * n)%nat by lia.
        rewrite Nat.div_add by lia. lia.
    + replace (length arr - i)%nat with O by lia. simpl.
      symmetry. apply Nat.div_small. lia.
Qed.

End ChunkFacts.

(** X7.  For a chunk size of 1 or more, [chunkArray] cuts the array into
    consecutive pieces: put end to end they are the array, none is empty,
    none is longer than the chunk size, and there are as many as the length
    divided by the chunk size, rounded up. *)
Theorem X7_chunkArray_partition {A : Type} (arr : list A) (chunkSize : nat) :
  (1 <= chunkSize)%nat ->
  concat (chunkArray arr chunkSize) = arr
  /\ Forall (fun c => c <> [] /\ (length c <= chunkSize)%nat)
            (chunkArray arr chunkSize)
  /\ (length (chunkArray arr chunkSize)
      = (length arr + (chunkSize - 1)) / chunkSize)%nat.
Proof.
  intros Hn. split; [by apply chunkArray_concat|]. split.
  - apply Forall_and. split.
    + by apply chunk_loop_nonempty.
    + apply chunkArray_bounded.
  - unfold chunkArray. rewrite chunk_loop_count; [|done|lia].
    by rewrite Nat.sub_0_r.
Qed.

Lemma X7_chunkArray_partition_witness :
  concat (chunkArray [1; 2; 3; 4; 5]%nat 2) = [1; 2; 3; 4; 5]%nat.
Proof. apply (X7_chunkArray_partition [1; 2; 3; 4; 5]%nat 2). lia. Defined.

(** ** More on the traversal engine *)

Section EngineFacts.

Variable get : jsstring -> axios_result.
Variable load : jsstring -> list node.
Variable mainUrl : jsstring.

Local Abbreviation page := (processPage get load mainUrl).

Lemma fetchFails_processPage (u : jsstring) :
  fetchFails get u -> page u = None.
Proof.
  unfold processPage, extractUrl, fetchFails.
  destruct (get u) as [|status data]; [done|]. intros [Hs | ->].
  - destruct (Z.eqb_spec status 200); [done | done].
  - by rewrite andb_false_r.
Qed.

Lemma whileLevels_fuel (maxdist : Z) (fuel : nat) (st : state) :
  maxdist + 1 <= currentLevel st + Z.of_nat fuel ->
  whileLevels get load fuel mainUrl maxdist st
  = whileLevels get load (Z.to_nat (maxdist + 1 - currentLevel st))
                mainUrl maxdist st.
Proof.
  revert st; induction fuel as [|f IH]; intros st H.
  - replace (Z.to_nat (maxdist + 1 - currentLevel st)) with O by lia. done.
  - destruct (Z.leb_spec (currentLevel st) maxdist) as [Hle|Hgt].
    + replace (Z.to_nat (maxdist + 1 - currentLevel st))
        with (S (Z.to_nat (maxdist + 1 - (currentLevel st + 1)))) by lia.
      simpl. destruct (Z.leb_spec (currentLevel st) maxdist); [|lia].
      apply (IH (crawlLevel get load mainUrl st)). simpl. lia.
    + replace (Z.to_nat (maxdist + 1 - currentLevel st)) with O by lia.
      simpl. by destruct (Z.leb_spec (currentLevel st) maxdist); [lia|].
Qed.

(** What one level does to the visited array and to the staged URLs. *)
Lemma merge_visited_new (frontier : list jsstring) (m : merged) :
  let m' := foldl mergePage m (List.map page frontier) in
  exists W,
    m_visited m' = m_visited m ++ W
    /\ W `sublist_of` frontier
    /\ (forall u, u ∈ m_newUrlsToVisit m' ->
                  u ∈ m_newUrlsToVisit m \/ u ∉ m_visited m)
    /\ m_id m' = m_id m + Z.of_nat (length W).
Proof.
  revert m; induction frontier as [|u l IH]; intros m; simpl.
  - exists []. rewrite app_nil_r. split; [done|]. split; [done|].
    split; [by left | simpl; lia].
  - destruct (page u) as [pr|] eqn:Ep.
    + pose proof (processPage_url get load mainUrl u pr Ep) as Hu.
      set (m1 := mergePage m (Some pr)).
      assert (Hv1 : m_visited m1 = m_visited m ++ [u]) by (by rewrite <- Hu).
      assert (Hn1 : m_newUrlsToVisit m1
                    = stageLinks (m_visited m ++ [u]) (m_newUrlsToVisit m) (links pr))
        by (by rewrite <- Hu).
      assert (Hi1 : m_id m1 = m_id m + 1) by done.
      destruct (IH m1) as (W & Hv & Hs & Hn & Hi).
      exists (u :: W). rewrite Hv, Hv1, <- app_assoc.
      split; [done|]. split; [by apply sublist_skip|]. split.
      * intros w Hw. destruct (Hn w Hw) as [Hw'|Hw'].
        -- rewrite Hn1 in Hw'.
           apply stageLinks_spec in Hw' as [?|[_ Hw']]; [by left|].
           right. intros ?. apply Hw', elem_of_app. by left.
        -- right. intros ?. apply Hw'. rewrite Hv1. apply elem_of_app. by left.
      * rewrite Hi, Hi1. simpl length. lia.
    + destruct (IH m) as (W & Hv & Hs & Hn & Hi). exists W.
      split; [done|]. split; [by apply sublist_cons | done].
Qed.

Lemma occurrences_app (u : jsstring) (l k : list jsstring) :
  occurrences u (l ++ k) = (occurrences u l + occurrences u k)%nat.
Proof. unfold occurrences. by rewrite filter_app, length_app. Qed.

Lemma occurrences_notin (u : jsstring) (l : list jsstring) :
  u ∉ l -> occurrences u l = O.
Proof.
  unfold occurrences. induction l as [|x l IH]; [done|]. intros Hn.
  apply not_elem_of_cons in Hn as [Hne Hn].
  rewrite filter_cons. destruct (decide (x = u)); [congruence | by apply IH].
Qed.

Lemma occurrences_NoDup (u : jsstring) (l : list jsstring) :
  NoDup l -> (occurrences u l <= 1)%nat.
Proof.
  induction 1 as [|x l Hx Hl IH]; [unfold occurrences; simpl; lia|].
  unfold occurrences in *. rewrite filter_cons.
  destruct (decide (x = u)) as [->|]; [|done].
  simpl. fold (occurrences u l). rewrite occurrences_notin; [lia | done].
Qed.

Lemma mergePage_aligned (m : merged) (pr : option IprocessedPage) :
  aligned (m_output m) (m_id m) (m_visited m) ->
  aligned (m_output (mergePage m pr)) (m_id (mergePage m pr))
          (m_visited (mergePage m pr)).
Proof.
  destruct pr as [pr|]; [|done]. intros [Hid Hl]. simpl. split.
  - rewrite length_app. simpl. lia.
  - intros i. destruct (decide (i = length (m_visited m))) as [->|Hne].
    + rewrite Hid, lookup_insert_eq. simpl.
      rewrite lookup_app_r, Nat.sub_diag by lia. done.
    + rewrite lookup_insert_ne by lia. rewrite Hl.
      destruct (Nat.lt_ge_cases i (length (m_visited m))).
      * by rewrite lookup_app_l.
      * rewrite !lookup_ge_None_2; [done | |lia].
        rewrite length_app. simpl. lia.
Qed.

Lemma crawl_aligned (maxdist : Z) :
  let st := crawl get load mainUrl maxdist in
  aligned (stackedOutput st) (autoincrmentId st) (visitedUrls st).
Proof.
  apply (crawl_invariant get load mainUrl
    (fun _ st => aligned (stackedOutput st) (autoincrmentId st) (visitedUrls st))).
  - split; [done|]. intros i. simpl. by rewrite lookup_empty.
  - intros _ st H. rewrite crawlLevel_flat. simpl. unfold mergeAll.
    apply (merge_invariant get load mainUrl
      (fun m => aligned (m_output m) (m_id m) (m_visited m))); [|done].
    intros m u pr _ _. apply mergePage_aligned.
Qed.

End EngineFacts.

Section EngineTheorems.

Variable get : jsstring -> axios_result.
Variable load : jsstring -> list node.
Variable mainUrl : jsstring.

Local Abbreviation page := (processPage get load mainUrl).

(** X8.  The bound on the simultaneous requests does not change what a
    level computes: merging the chunks of a frontier gives the same result
    for every chunk size of 1 or more. *)
Theorem X8_chunk_size_irrelevant (frontier : list jsstring) (m : merged)
    (size1 size2 : nat) :
  (1 <= size1)%nat -> (1 <= size2)%nat ->
  foldl (processChunk get load mainUrl) m (chunkArray frontier size1)
  = foldl (processChunk get load mainUrl) m (chunkArray frontier size2).
Proof.
  intros H1 H2. rewrite !processChunks_flat. by rewrite !chunkArray_concat.
Qed.

(** X9.  For an integer depth, the body of the loop of [runCrawler] runs
    [maxdist] times (not at all when [maxdist] is below 1): the state when
    the loop is left is the initial state after that many levels, and
    [currentLevel] is then [maxdist + 1] (1 when [maxdist] is below 1), above
    [maxdist]. *)
Theorem X9_loop_exit (maxdist : Z) :
  crawl get load mainUrl maxdist
  = Nat.iter (Z.to_nat maxdist) (crawlLevel get load mainUrl) (initialState mainUrl)
  /\ currentLevel (crawl get load mainUrl maxdist) = Z.max 1 (maxdist + 1)
  /\ maxdist < currentLevel (crawl get load mainUrl maxdist).
Proof.
  assert (H : currentLevel (crawl get load mainUrl maxdist) = Z.max 1 (maxdist + 1)).
  { unfold crawl. destruct (Z.le_gt_cases 0 maxdist) as [H|H].
    - destruct (whileLevels_iter get load mainUrl (Z.to_nat maxdist) maxdist
                  (initialState mainUrl)) as [_ E]; [simpl; lia|].
      rewrite E. lia.
    - replace (Z.to_nat maxdist) with O by lia. simpl. lia. }
  split; [apply crawl_iter|]. split; [exact H | lia].
Qed.

(** X10.  With a depth below 1, [runCrawler] fetches nothing: no page is
    visited and the object it writes is empty. *)
Theorem X10_no_level (maxdist : Z) (dbName : jsstring) :
  maxdist <= 0 ->
  runCrawler get load mainUrl maxdist dbName = (dbName, ∅)
  /\ visitedUrls (crawl get load mainUrl maxdist) = [].
Proof.
  intros H. unfold runCrawler, crawl.
  destruct (Z.to_nat maxdist) eqn:E; simpl.
  - done.
  - destruct (Z.leb_spec 1 maxdist); [lia | done].
Qed.

(** X11.  When the seed cannot be fetched, the crawl records nothing and
    visits nothing, whatever the depth. *)
Theorem X11_seed_fails (maxdist : Z) (dbName : jsstring) :
  fetchFails get mainUrl ->
  runCrawler get load mainUrl maxdist dbName = (dbName, ∅)
  /\ visitedUrls (crawl get load mainUrl maxdist) = [].
Proof.
  intros Hf. apply fetchFails_processPage with (load := load) (mainUrl := mainUrl) in Hf.
  assert (H : let st := crawl get load mainUrl maxdist in
              stackedOutput st = ∅ /\ visitedUrls st = []
              /\ (urlsToVisit st = [mainUrl] \/ urlsToVisit st = [])).
  { apply (crawl_invariant get load mainUrl
      (fun _ st => stackedOutput st = ∅ /\ visitedUrls st = []
                   /\ (urlsToVisit st = [mainUrl] \/ urlsToVisit st = []))).
    - split; [done|]. split; [done | by left].
    - intros _ st (Ho & Hv & Hu). rewrite crawlLevel_flat. unfold mergeAll.
      destruct Hu as [-> | ->]; simpl; rewrite ?Hf; simpl; auto. }
  destruct H as (Ho & Hv & _). unfold runCrawler. by rewrite Ho.
Qed.

(** X12.  The visited array lists the URLs of the records in the order of
    their ids: the URL at index [i] is the URL of the record [i + 1], and
    there are as many records as visited URLs. *)
Theorem X12_visited_are_records (maxdist : Z) :
  let st := crawl get load mainUrl maxdist in
  (forall i : nat,
      r_url <$> stackedOutput st !! (Z.of_nat i + 1) = visitedUrls st !! i)
  /\ size (stackedOutput st) = length (visitedUrls st).
Proof.
  intros st. destruct (crawl_aligned get load mainUrl maxdist) as [Hid Hl].
  split; [exact Hl|].
  pose proof (dense_size _ _ (crawl_dense get load mainUrl maxdist)) as Hs.
  fold st in Hid, Hs. lia.
Qed.

(** X13.  Every recorded URL begins with the seed: it is the seed itself
    or a normalised href that passed the same-site test; so does every URL
    of every frontier. *)
Theorem X13_same_site (maxdist : Z) (u : jsstring) :
  let st := crawl get load mainUrl maxdist in
  recorded u (stackedOutput st) \/ u ∈ urlsToVisit st ->
  startsWith u mainUrl = true
  /\ (u = mainUrl \/ sameSiteLink mainUrl u).
Proof.
  intros st.
  assert (Hself : startsWith mainUrl mainUrl = true)
    by (by apply startsWith_prefix).
  assert (Hok : forall w, w = mainUrl \/ sameSiteLink mainUrl w ->
                  startsWith w mainUrl = true /\ (w = mainUrl \/ sameSiteLink mainUrl w)).
  { intros w [->|H]; [by auto|]. split; [|by right]. by destruct H as (? & _ & ?). }
  assert (H : (forall w, recorded w (stackedOutput st) ->
                         w = mainUrl \/ sameSiteLink mainUrl w)
              /\ (forall w, w ∈ urlsToVisit st ->
                            w = mainUrl \/ sameSiteLink mainUrl w)).
  { apply (crawl_invariant get load mainUrl
      (fun _ st => (forall w, recorded w (stackedOutput st) ->
                              w = mainUrl \/ sameSiteLink mainUrl w)
                   /\ (forall w, w ∈ urlsToVisit st ->
                                 w = mainUrl \/ sameSiteLink mainUrl w))).
    - split.
      + intros w (k & r & Hl & _). simpl in Hl. by rewrite lookup_empty in Hl.
      + intros w Hw. apply list_elem_of_singleton in Hw. by left.
    - intros _ s [Hr Hf]. rewrite crawlLevel_flat. simpl. unfold mergeAll.
      apply (merge_invariant get load mainUrl
        (fun m => (forall w, recorded w (m_output m) ->
                             w = mainUrl \/ sameSiteLink mainUrl w)
                  /\ (forall w, w ∈ m_newUrlsToVisit m ->
                                w = mainUrl \/ sameSiteLink mainUrl w))).
      + intros m x pr Hx Hp [H1 H2]. simpl.
        pose proof (processPage_url get load mainUrl x pr Hp) as Hu. split.
        * intros w Hw. apply recorded_insert in Hw as [Hw|Hw]; [|by apply H1].
          simpl in Hw. subst w. rewrite Hu. by apply Hf.
        * intros w Hw. apply stageLinks_spec in Hw as [Hw|[Hw _]]; [by apply H2|].
          right. apply processPage_sameSite in Hp.
          by eapply Forall_forall in Hp.
      + split; [done|]. by intros w ?%elem_of_nil. }
  destruct H as [Hr Hf]. intros [Hu|Hu]; apply Hok; [by apply Hr | by apply Hf].
Qed.

(** X14.  No URL stands twice in a frontier, and a URL that was in the
    visited array when a level began is not staged by that level. *)
Theorem X14_dedup (maxdist : Z) (st : state) (u : jsstring) :
  NoDup (urlsToVisit (crawl get load mainUrl maxdist))
  /\ (u ∈ visitedUrls st -> u ∉ urlsToVisit (crawlLevel get load mainUrl st)).
Proof.
  split; [apply frontier_NoDup|].
  intros Hu. rewrite crawlLevel_flat. simpl. unfold mergeAll.
  destruct (merge_visited_new get load mainUrl (urlsToVisit st)
              {| m_output := stackedOutput st; m_id := autoincrmentId st;
                 m_visited := visitedUrls st; m_newUrlsToVisit := [] |})
    as (W & _ & _ & Hn & _).
  intros Hin. destruct (Hn u Hin) as [H|H]; [by apply elem_of_nil in H | done].
Qed.

(** X15.  A level appends to the visited array and to the store and takes
    nothing away: the visited array of a crawl is the beginning of the
    visited array of every deeper crawl of the same web. *)
Theorem X15_visited_grows (n k : nat) :
  visitedUrls (crawl get load mainUrl (Z.of_nat n))
  `prefix_of` visitedUrls (crawl get load mainUrl (Z.of_nat (n + k))).
Proof.
  induction k as [|k IH]; [by rewrite Nat.add_0_r|].
  etrans; [exact IH|]. rewrite Nat.add_succ_r, crawl_succ, crawlLevel_flat.
  simpl. unfold mergeAll.
  destruct (merge_visited_new get load mainUrl
              (urlsToVisit (crawl get load mainUrl (Z.of_nat (n + k))))
              {| m_output := stackedOutput (crawl get load mainUrl (Z.of_nat (n + k)));
                 m_id := autoincrmentId (crawl get load mainUrl (Z.of_nat (n + k)));
                 m_visited := visitedUrls (crawl get load mainUrl (Z.of_nat (n + k)));
                 m_newUrlsToVisit := [] |})
    as (W & Hv & _). simpl in Hv. rewrite Hv. by apply prefix_app_r.
Qed.

(** X16.  No URL is fetched with success more than twice in one crawl: it
    stands at most twice in the visited array (and so, by the order of the
    ids, in at most two records). *)
Theorem X16_at_most_twice (maxdist : Z) (u : jsstring) :
  (occurrences u (visitedUrls (crawl get load mainUrl maxdist)) <= 2)%nat.
Proof.
  assert (H : let st := crawl get load mainUrl maxdist in
              NoDup (urlsToVisit st)
              /\ forall w, (occurrences w (visitedUrls st) <= 2)%nat
                           /\ (w ∈ urlsToVisit st ->
                               (occurrences w (visitedUrls st) <= 1)%nat)).
  { apply (crawl_invariant get load mainUrl
      (fun _ st => NoDup (urlsToVisit st)
                   /\ forall w, (occurrences w (visitedUrls st) <= 2)%nat
                                /\ (w ∈ urlsToVisit st ->
                                    (occurrences w (visitedUrls st) <= 1)%nat))).
    - split; [apply NoDup_singleton|]. intros w. simpl.
      unfold occurrences. simpl. split; intros; lia.
    - intros _ st [Hnd Hocc]. rewrite crawlLevel_flat. simpl. unfold mergeAll.
      set (m0 := {| m_output := stackedOutput st; m_id := autoincrmentId st;
                    m_visited := visitedUrls st; m_newUrlsToVisit := [] |}).
      destruct (merge_visited_new get load mainUrl (urlsToVisit st) m0)
        as (W & Hv & Hs & Hn & _).
      simpl in Hv, Hn. split.
      + apply (merge_invariant get load mainUrl
                 (fun m => NoDup (m_newUrlsToVisit m))); [|apply NoDup_nil_2].
        intros m x pr _ _ Hm. simpl. by apply stageLinks_spec.
      + intros w. rewrite Hv, occurrences_app.
        assert (HndW : NoDup W) by (by eapply sublist_NoDup).
        pose proof (occurrences_NoDup w W HndW) as HW.
        destruct (Hocc w) as [H2 H1]. split.
        * destruct (decide (w ∈ urlsToVisit st)) as [Hin|Hnin].
          -- specialize (H1 Hin). lia.
          -- rewrite (occurrences_notin w W); [lia|].
             intros HwW. apply Hnin. by eapply elem_of_sublist.
        * intros Hin. destruct (Hn w Hin) as [Hin'|Hnv]; [by apply elem_of_nil in Hin'|].
          rewrite (occurrences_notin w (visitedUrls st)) by done. lia. }
  apply H.
Qed.

End EngineTheorems.

(** ** More on the page extractor *)

Section ExtractorFacts.

Variable get : jsstring -> axios_result.
Variable load : jsstring -> list node.
Variable mainUrl : jsstring.

Lemma pushUnique_NoDup (arr : list jsstring) (x : jsstring) :
  NoDup arr -> NoDup (pushUnique arr x).
Proof.
  intros H. unfold pushUnique. destruct (arr_includes arr x) eqn:E; [done|]. simpl.
  apply bool_decide_eq_false in E. apply NoDup_app. split; [done|]. split.
  - intros y Hy Hy'. apply list_elem_of_singleton in Hy' as ->. done.
  - apply NoDup_singleton.
Qed.

Lemma collectLink_NoDup (fu : list jsstring) (e : node) :
  NoDup fu -> NoDup (collectLink mainUrl fu e).
Proof.
  intros H. unfold collectLink. destruct (is_ e (js "a")); [|done].
  destruct (attr e (js "href")) as [href|]; [|done].
  destruct (truthy href && negb (arr_includes EXCLUDED_HREFS href)
            && negb (startsWith href (js "mailto"))); [|done].
  cbv zeta. destruct (startsWith (processHrefValue mainUrl href) mainUrl); [|done].
  by apply pushUnique_NoDup.
Qed.

Lemma collectLink_excluded (fu : list jsstring) (e : node) :
  (negb (is_ e (js "a")) || excludedHref (attr e (js "href"))) = true ->
  collectLink mainUrl fu e = fu.
Proof.
  unfold collectLink, excludedHref. destruct (is_ e (js "a")); [|done]. simpl.
  destruct (attr e (js "href")) as [href|]; [|done].
  destruct (truthy href); [|done]. simpl.
  destruct (arr_includes EXCLUDED_HREFS href); [done|]. simpl.
  by intros ->.
Qed.


Lemma each_invariant (P : extraction -> Prop) (els : list node) :
  (forall st e, e ∈ els -> P st -> P (eachElement mainUrl st e)) ->
  forall st, P st -> P (foldl (eachElement mainUrl) st els).
Proof.
  induction els as [|e els IH]; intros Hstep st H; [done|]. simpl.
  apply IH.
  - intros st' e' He'. apply Hstep. by right.
  - apply Hstep; [by left | done].
Qed.

Lemma eachElement_script (st : extraction) (e : node) :
  isScript e = true -> eachElement mainUrl st e = st.
Proof. unfold eachElement, isScript. by intros ->. Qed.

Lemma title_not_script (e : node) :
  is_ e (js "title") = true -> isScript e = false.
Proof.
  unfold isScript, is_. destruct e as [|name a cs]; [done|].
  intros H. apply bool_decide_eq_true in H. subst name. reflexivity.
Qed.

End ExtractorFacts.

Section ExtractorTheorems.

Variable get : jsstring -> axios_result.
Variable load : jsstring -> list node.
Variable mainUrl : jsstring.


(** X18.  The links of an extracted page are normalised hrefs that begin
    with the seed, and no link is listed twice. *)
Theorem X18_links (u : jsstring) (pr : IprocessedPage) :
  processPage get load mainUrl u = Some pr ->
  NoDup (links pr) /\ Forall (sameSiteLink mainUrl) (links pr).
Proof.
  intros Hp. split; [|by eapply processPage_sameSite].
  revert Hp. unfold processPage. destruct (extractUrl get u) as [h|]; [|done].
  destruct (negb (truthy h)); [done|]. intros [= <-]. simpl.
  apply (each_invariant mainUrl (fun st => NoDup (findedUrls st))); [|constructor].
  intros st e _ H. unfold eachElement.
  destruct (EXCLUDE_SCRIPTS && (is_ e (js "script") || is_ e (js "noscript"))); [done|].
  destruct (is_ e (js "title")); simpl; by apply collectLink_NoDup.
Qed.

(** X19.  The title of a page is the text of its last title element. *)
Theorem X19_last_title (u html : jsstring) (before_ after_ : list node) (t : node) :
  extractUrl get u = Some html ->
  allElements (load html) = before_ ++ t :: after_ ->
  is_ t (js "title") = true ->
  forallb (fun e => negb (is_ e (js "title"))) after_ = true ->
  exists pr, processPage get load mainUrl u = Some pr /\ title pr = text t.
Proof.
  intros Hx Hels Ht Hafter. unfold processPage. rewrite Hx.
  rewrite (extractUrl_truthy get u html Hx). simpl.
  eexists. split; [reflexivity|]. simpl.
  rewrite Hels, foldl_app. simpl. rewrite each_title by done.
  unfold eachElement. fold (isScript t). rewrite (title_not_script t Ht).
  rewrite Ht. reflexivity.
Qed.

(** X20.  A script or noscript element gives nothing to the extraction, not
    a text, not a title, not a link: without these elements the walk over
    the document ends in the same state. *)
Theorem X20_scripts_skipped (els : list node) (st : extraction) :
  foldl (eachElement mainUrl) st els
  = foldl (eachElement mainUrl) st (filter (fun e => isScript e = false) els).
Proof.
  revert st; induction els as [|e els IH]; intros st; [done|].
  rewrite filter_cons. destruct (decide (isScript e = false)) as [E|E]; simpl.
  - apply IH.
  - rewrite eachElement_script; [apply IH | by destruct (isScript e)].
Qed.

(** X21.  A page all of whose anchors have no href, an empty one, the href
    / or #, or one that begins with mailto, has no links. *)
Theorem X21_unfollowed_hrefs (u html : jsstring) :
  extractUrl get u = Some html ->
  forallb (fun e => negb (is_ e (js "a")) || excludedHref (attr e (js "href")))
          (allElements (load html)) = true ->
  exists pr, processPage get load mainUrl u = Some pr /\ links pr = [].
Proof.
  intros Hx Hall. unfold processPage. rewrite Hx.
  rewrite (extractUrl_truthy get u html Hx). simpl.
  eexists. split; [reflexivity|]. simpl.
  rewrite forallb_forall in Hall.
  apply (each_invariant mainUrl (fun st => findedUrls st = [])); [|done].
  intros st e He H. unfold eachElement.
  destruct (EXCLUDE_SCRIPTS && (is_ e (js "script") || is_ e (js "noscript"))); [done|].
  assert (Hex : (negb (is_ e (js "a")) || excludedHref (attr e (js "href"))) = true)
    by (apply Hall; by apply list_elem_of_In).
  destruct (is_ e (js "title")); simpl; rewrite collectLink_excluded; done.
Qed.


End ExtractorTheorems.

Lemma X18_links_witness :
  NoDup [js "http://www.x.com/about"]
  /\ Forall (sameSiteLink A) [js "http://www.x.com/about"].
Proof.
  apply (X18_links home_get home_load A A
           {| url := A; title := js "Home"; texts := js "Welcome";
              links := [js "http://www.x.com/about"] |}).
  vm_compute. reflexivity.
Defined.

Lemma X19_last_title_witness :
  exists pr,
    processPage twotitles_get twotitles_load A A = Some pr
    /\ title pr = js "Second".
Proof.
  apply (X19_last_title twotitles_get twotitles_load A A (js "a")
           [Element (js "html") []
              [Element (js "head") []
                 [Element (js "title") [] [TextNode (js "First")];
                  Element (js "title") [] [TextNode (js "Second")]];
               Element (js "body") [] [Element (js "p") [] [TextNode (js "text")]]];
            Element (js "head") []
              [Element (js "title") [] [TextNode (js "First")];
               Element (js "title") [] [TextNode (js "Second")]];
            Element (js "title") [] [TextNode (js "First")]]
           [Element (js "body") [] [Element (js "p") [] [TextNode (js "text")]];
            Element (js "p") [] [TextNode (js "text")]]
           (Element (js "title") [] [TextNode (js "Second")]));
    vm_compute; reflexivity.
Defined.

Lemma X21_unfollowed_hrefs_witness :
  exists pr, processPage unfollowed_get unfollowed_load A A = Some pr /\ links pr = [].
Proof.
  apply (X21_unfollowed_hrefs unfollowed_get unfollowed_load A A (js "a"));
    vm_compute; reflexivity.
Defined.


(** ** More on the URL normaliser *)

Section NormaliserFacts.

Lemma before_no_char (c : jschar) (s : jsstring) : c ∉ before c s.
Proof.
  induction s as [|d s IH]; simpl; [by intros ?%elem_of_nil|].
  destruct (N.eqb_spec d c) as [->|Hne]; [by intros ?%elem_of_nil|].
  intros [?|?]%elem_of_cons; [congruence | done].
Qed.

Lemma replace_inserts (s : jsstring) :
  includes s [58; 47; 47]%N = true ->
  includes (replace s [58; 47; 47]%N [58; 47; 47; 119; 119; 119; 46]%N)
           [119; 119; 119; 46]%N = true.
Proof.
  induction s as [|c s IH]; [done|].
  cbn [replace includes].
  destruct (startsWith (c :: s) [58; 47; 47]%N) eqn:E.
  - intros _. apply includes_occurs.
    exists [58; 47; 47]%N, (drop 3 (c :: s)). reflexivity.
  - simpl orb. intros H. apply includes_cons. by apply IH.
Qed.

Lemma replaceAll_from_sublist (re : regexp) (s : jsstring) (skip : nat) :
  replaceAll_from skip s re `sublist_of` s.
Proof.
  revert skip; induction s as [|c s IH]; intros skip; simpl; [done|].
  destruct skip as [|k]; [|by apply sublist_cons].
  destruct (re (c :: s)) as [[|k]|];
    [by apply sublist_skip | by apply sublist_cons | by apply sublist_skip].
Qed.

Lemma replaceAll_from_id (re : regexp) (s : jsstring) :
  (forall t, t `suffix_of` s -> re t = None) ->
  replaceAll_from O s re = s.
Proof.
  induction s as [|c s IH]; intros H; simpl; [done|].
  rewrite (H (c :: s)) by done. f_equal. apply IH.
  intros t Ht. apply H. by apply suffix_cons_r.
Qed.

Lemma run_length_digits (s : jsstring) :
  Forall (fun c => isDigit c = false) s -> run_length isDigit s = O.
Proof. destruct 1 as [|c s Hc _]; simpl; [done | by rewrite Hc]. Qed.

Lemma Forall_drop_suffix {A} (P : A -> Prop) (t s : list A) (n : nat) :
  Forall P s -> t `suffix_of` s -> Forall P (drop n t).
Proof.
  intros Hs [k ->]. apply Forall_app in Hs as [_ Hs]. by apply Forall_drop.
Qed.

End NormaliserFacts.

(** X23.  [deleteParamsFromUrl] gives a beginning of the URL that holds no
    question mark, and does nothing when applied twice; so a normalised href
    never holds a question mark. *)
Theorem X23_no_question_mark (mainUrl href url : jsstring) :
  deleteParamsFromUrl url `prefix_of` url
  /\ (63%N ∉ deleteParamsFromUrl url)
  /\ deleteParamsFromUrl (deleteParamsFromUrl url) = deleteParamsFromUrl url
  /\ (63%N ∉ processHrefValue mainUrl href).
Proof.
  rewrite !deleteParamsFromUrl_before. split; [apply before_prefix|].
  split; [apply before_no_char|]. split.
  - apply before_notin, before_no_char.
  - unfold processHrefValue. rewrite deleteParamsFromUrl_before.
    apply before_no_char.
Qed.

(** X24.  After [addWWWIfMissing] a URL holds www. exactly when it held
    www. or [://] before; a URL with neither is left as it is, and the step
    does nothing when applied twice. *)
Theorem X24_addWWWIfMissing (url : jsstring) :
  includes (addWWWIfMissing url) (js "www.")
  = (includes url (js "www.") || includes url (js "://"))
  /\ ((includes url (js "www.") || includes url (js "://")) = false ->
      addWWWIfMissing url = url)
  /\ addWWWIfMissing (addWWWIfMissing url) = addWWWIfMissing url.
Proof.
  assert (H1 : includes (addWWWIfMissing url) (js "www.")
               = (includes url (js "www.") || includes url (js "://"))).
  { unfold addWWWIfMissing. destruct (includes url (js "www.")) eqn:Ew; [by rewrite Ew|].
    simpl. destruct (includes url (js "://")) eqn:Es.
    - by apply replace_inserts.
    - rewrite replace_absent; [done|]. by apply includes_false. }
  assert (H2 : (includes url (js "www.") || includes url (js "://")) = false ->
               addWWWIfMissing url = url).
  { intros H. apply orb_false_iff in H as [Hw Hs]. unfold addWWWIfMissing.
    rewrite Hw. apply replace_absent. by apply includes_false. }
  split; [done|]. split; [done|].
  destruct (includes url (js "www.") || includes url (js "://")) eqn:E.
  - unfold addWWWIfMissing at 1. by rewrite H1.
  - by rewrite !(H2 eq_refl).
Qed.

(** X25.  An href that does not begin with http is put under the site
    root: the result is the root without its last slash, if it ends with
    one, then a slash, then the href without its first slash, if it begins
    with one.  One slash at most is taken off each side, so an href that
    begins with two slashes leaves two slashes at the seam. *)
Theorem X25_seam (mainUrl href : jsstring) :
  startsWith href (js "http") = false ->
  mainUrl `prefix_of` addHttpIfMissing mainUrl href
  /\ (exists root path,
      (mainUrl = root ++ js "/"
       \/ (mainUrl = root /\ endsWith mainUrl (js "/") = false))
      /\ (href = js "/" ++ path
          \/ (href = path /\ startsWith href (js "/") = false))
      /\ addHttpIfMissing mainUrl href = root ++ js "/" ++ path)
  /\ (forall rest, href = js "//" ++ rest ->
      exists root,
        (mainUrl = root ++ js "/"
         \/ (mainUrl = root /\ endsWith mainUrl (js "/") = false))
        /\ addHttpIfMissing mainUrl href = root ++ js "//" ++ rest).
Proof.
  intros Hh.
  assert (Hmain : exists root path,
      (mainUrl = root ++ js "/"
       \/ (mainUrl = root /\ endsWith mainUrl (js "/") = false))
      /\ (href = js "/" ++ path
          \/ (href = path /\ startsWith href (js "/") = false))
      /\ addHttpIfMissing mainUrl href = root ++ js "/" ++ path).
  { unfold addHttpIfMissing. rewrite Hh.
    destruct (startsWith href (js "/")) eqn:Es;
      destruct (endsWith mainUrl (js "/")) eqn:Ee; simpl.
    - rewrite substring_from_1.
      apply startsWith_prefix in Es as [path ->].
      apply endsWith_suffix in Ee as [root ->].
      exists root, path. split; [by left|]. split; [by left|].
      by rewrite <- app_assoc.
    - apply startsWith_prefix in Es as [path ->].
      exists mainUrl, path. split; [by right|]. split; [by left | done].
    - apply endsWith_suffix in Ee as [root ->].
      exists root, href. split; [by left|]. split; [by right|].
      by rewrite <- app_assoc.
    - exists mainUrl, href. split; [by right|]. split; [by right | done]. }
  split; [|split; [exact Hmain|]].
  - unfold addHttpIfMissing. rewrite Hh.
    destruct (startsWith href (js "/") && endsWith mainUrl (js "/"));
      [by apply prefix_app_r|].
    destruct (negb (startsWith href (js "/")) && negb (endsWith mainUrl (js "/")));
      by apply prefix_app_r.
  - intros rest ->. destruct Hmain as (root & path & Hr & Hp & E).
    exists root. split; [exact Hr|]. rewrite E.
    destruct Hp as [Hp | [_ Hp]]; [|done].
    simpl in Hp. injection Hp as <-. reflexivity.
Qed.

Lemma X25_seam_witness :
  exists root,
    (js "http://www.x.com/" = root ++ js "/"
     \/ (js "http://www.x.com/" = root
         /\ endsWith (js "http://www.x.com/") (js "/") = false))
    /\ addHttpIfMissing (js "http://www.x.com/") (js "//cdn.x.com/a")
       = root ++ js "//" ++ js "cdn.x.com/a".
Proof.
  refine (proj2 (proj2 (X25_seam (js "http://www.x.com/") (js "//cdn.x.com/a") _))
            (js "cdn.x.com/a") eq_refl).
  reflexivity.
Defined.

(** X26.  Stripping the parenthesised numbers only takes code units away,
    keeping the others in their order, and leaves a text as it is when the
    text holds no opening parenthesis or no digit. *)
Theorem X26_strip_numbers (s : jsstring) :
  replaceAll s parenthesizedNumber `sublist_of` s
  /\ (40%N ∉ s -> replaceAll s parenthesizedNumber = s)
  /\ (Forall (fun c => isDigit c = false) s ->
      replaceAll s parenthesizedNumber = s).
Proof.
  split; [apply replaceAll_from_sublist|]. split.
  - intros Hno. apply replaceAll_from_id. intros t Ht.
    destruct t as [|c t]; [done|]. simpl.
    destruct (N.eqb_spec c 40) as [->|]; [|done].
    exfalso. apply Hno. destruct Ht as [k ->]. apply elem_of_app. right. by left.
  - intros Hno. apply replaceAll_from_id. intros t Ht.
    destruct t as [|c t]; [done|]. unfold parenthesizedNumber.
    destruct (c =? 40)%N; [|done]. cbv zeta.
    rewrite run_length_digits; [done|].
    apply (Forall_drop_suffix _ t s).
    + done.
    + etrans; [|exact Ht]. by apply suffix_cons_r.
Qed.

Lemma X26_strip_numbers_witness :
  replaceAll (js "Welcome") parenthesizedNumber = js "Welcome".
Proof.
  apply (proj1 (proj2 (X26_strip_numbers (js "Welcome")))).
  apply (bool_decide_unpack _). vm_compute. exact I.
Defined.

(** ** The properties at concrete inputs *)

Lemma X2_run_url_checked_first_witness :
  run home_get home_load {| o_url := Some []; o_maxdist := Some (-3); o_db := None |}
  = inl NO_URL_MSG.
Proof.
  apply (proj1 (X2_run_url_checked_first home_get home_load (Some []) (Some (-3)) None)).
  by right.
Defined.

Lemma X3_run_negative_maxdist_witness :
  run home_get home_load {| o_url := Some A; o_maxdist := Some (-1); o_db := None |}
  = inl INVALID_MAXDIST_MSG.
Proof.
  apply (X3_run_negative_maxdist home_get home_load A (-1) None); [reflexivity | lia].
Defined.

Lemma X4_run_crawls_witness :
  run home_get home_load {| o_url := Some A; o_maxdist := Some 2; o_db := None |}
  = inr (runCrawler home_get home_load A 2 (js "crawler.JSON")).
Proof.
  apply (X4_run_crawls home_get home_load A 2 None); [reflexivity | lia].
Defined.

Lemma X5_run_file_name_witness :
  endsWith (js "out.JSON") (js ".JSON") = true.
Proof.
  apply (X5_run_file_name home_get home_load
           {| o_url := Some A; o_maxdist := Some 1; o_db := Some (js "out.JSON") |}
           (Some (js "out")) (js "out.JSON")
           {[ 1 := {| r_url := A; r_title := js "Home"; r_texts := js "Welcome" |} ]});
    vm_compute; reflexivity.
Defined.

Lemma X8_chunk_size_irrelevant_witness :
  foldl (processChunk chain_get chain_load A)
        {| m_output := ∅; m_id := 1; m_visited := []; m_newUrlsToVisit := [] |}
        (chunkArray [A; B; C] 1)
  = foldl (processChunk chain_get chain_load A)
        {| m_output := ∅; m_id := 1; m_visited := []; m_newUrlsToVisit := [] |}
        (chunkArray [A; B; C] 100).
Proof. apply X8_chunk_size_irrelevant; lia. Defined.

Lemma X10_no_level_witness :
  runCrawler home_get home_load A 0 (js "db") = (js "db", ∅).
Proof. apply (X10_no_level home_get home_load A 0 (js "db")). lia. Defined.

Lemma X11_seed_fails_witness :
  runCrawler home_get home_load (js "http://www.x.com/about") 3 (js "db")
  = (js "db", ∅).
Proof.
  apply (X11_seed_fails home_get home_load (js "http://www.x.com/about") 3 (js "db")).
  exact I.
Defined.

Lemma X13_same_site_witness :
  startsWith (js "http://www.x.com/about") A = true.
Proof.
  apply (X13_same_site home_get home_load A 1 (js "http://www.x.com/about")).
  right. apply (bool_decide_unpack _). vm_compute. exact I.
Defined.

Lemma X14_dedup_witness :
  A ∈ visitedUrls (crawl cycle_get cycle_load A 1)
  /\ (exists pr, processPage cycle_get cycle_load A B = Some pr /\ A ∈ links pr)
  /\ urlsToVisit (crawl cycle_get cycle_load A 1) = [B]
  /\ (A ∉ urlsToVisit (crawlLevel cycle_get cycle_load A
                        (crawl cycle_get cycle_load A 1))).
Proof.
  assert (H : A ∈ visitedUrls (crawl cycle_get cycle_load A 1))
    by (apply (bool_decide_unpack _); vm_compute; exact I).
  split; [exact H|]. split; [|split; [vm_compute; reflexivity|]].
  - exists {| url := B; title := js "B"; texts := [];
              links := [A; C] |}.
    split; [vm_compute; reflexivity|]. by left.
  - exact (proj2 (X14_dedup cycle_get cycle_load A 1
                    (crawl cycle_get cycle_load A 1) A) H).
Defined.


Lemma X24_addWWWIfMissing_witness :
  addWWWIfMissing (js "about") = js "about".
Proof.
  apply (proj1 (proj2 (X24_addWWWIfMissing (js "about")))). reflexivity.
Defined.
